(** * Proma: agent session store, activity rows, context badge, workspace watcher

    A shallow embedding of four pieces of the Electron application:

    - [ToolActivityItem.tsx]: [computeDiffStats] and the [derivedStatus] of
      [ActivityGroupRow];
    - [ContextUsageBadge.tsx]: the classification the badge renders;
    - the agent session manager: [readIndex], [writeIndex],
      [listAgentSessions], [createAgentSession], [getAgentSessionMessages],
      [appendAgentMessage], [updateAgentSessionMeta];
    - the workspace watcher: [startWorkspaceWatcher], [stopWorkspaceWatcher]
      and the two debounce timers of the [fs.watch] callback.

    JavaScript numbers are IEEE binary64 values (Rocq's primitive floats) where
    the source computes with fractions, and integers ([Z], [N]) where it only
    counts or compares time stamps.  Strings are byte strings: the UTF-8
    encoding of the JavaScript string, on which splitting at a line feed,
    suffix and substring tests against ASCII patterns, and emptiness agree with
    the UTF-16 operations of the source. *)

From stdpp Require Import gmap strings list fin_maps.
From Stdlib Require Import ZArith NArith Ascii String Bool Lia.
From Stdlib Require Import Sorting.Sorted Sorting.Permutation.
From Stdlib Require Import Floats.PrimFloat Floats.SpecFloat Floats.FloatOps Floats.FloatAxioms.

Set Warnings "-inexact-float".
Local Open Scope Z_scope.

(** ** JavaScript helpers *)

Module Js.

(** [s.split('\n')]: the segments between line feeds; the empty string splits
    into one empty segment. *)
Fixpoint split (sep : ascii) (s : string) : list string :=
  match s with
  | EmptyString => [EmptyString]
  | String c s' =>
      if Ascii.eqb c sep then EmptyString :: split sep s'
      else match split sep s' with
           | [] => [String c EmptyString]
           | w :: ws => String c w :: ws
           end
  end.

Definition LF : ascii := "010"%char.

(** A string without a line feed: splitting it gives the string itself. *)
Definition single_line (s : string) : Prop := split LF s = [s].

(** Truthiness of a string: [!s] holds of the empty string only. *)
Definition truthy_string (s : string) : bool :=
  match s with EmptyString => false | String _ _ => true end.

(** [a || b] on an optional string: the first operand unless it is
    [undefined] or empty. *)
Definition or_default (a : option string) (b : string) : string :=
  match a with
  | Some s => if truthy_string s then s else b
  | None => b
  end.

(** [s.endsWith(suffix)] and [s.includes(pattern)]. *)
Fixpoint startsWith (p s : string) : bool :=
  match p, s with
  | EmptyString, _ => true
  | String a p', String b s' => Ascii.eqb a b && startsWith p' s'
  | String _ _, EmptyString => false
  end.

Fixpoint includes (p s : string) : bool :=
  startsWith p s ||
  match s with
  | EmptyString => false
  | String _ s' => includes p s'
  end.

Fixpoint endsWith (p s : string) : bool :=
  String.eqb p s ||
  match s with
  | EmptyString => false
  | String _ s' => endsWith p s'
  end.

(** [s.trim()] removes white space and line terminators at both ends, so it
    is empty exactly when the string holds nothing else.  On the UTF-8 bytes
    the code points to recognise are U+0009..U+000D, U+0020, U+00A0, U+1680,
    U+2000..U+200A, U+2028, U+2029, U+202F, U+205F, U+3000 and U+FEFF; the
    automaton below reads them byte by byte. *)
Inductive ws_state : Type :=
  | WsStart | WsC2 | WsE1 | WsE1_9A | WsE2 | WsE2_80 | WsE2_81
  | WsE3 | WsE3_80 | WsEF | WsEF_BB.

Definition ws_next (st : ws_state) (c : ascii) : option ws_state :=
  let n := N_of_ascii c in
  match st with
  | WsStart =>
      if ((9 <=? n) && (n <=? 13))%N || (n =? 32)%N then Some WsStart
      else if (n =? 194)%N then Some WsC2
      else if (n =? 225)%N then Some WsE1
      else if (n =? 226)%N then Some WsE2
      else if (n =? 227)%N then Some WsE3
      else if (n =? 239)%N then Some WsEF
      else None
  | WsC2 => if (n =? 160)%N then Some WsStart else None
  | WsE1 => if (n =? 154)%N then Some WsE1_9A else None
  | WsE1_9A => if (n =? 128)%N then Some WsStart else None
  | WsE2 =>
      if (n =? 128)%N then Some WsE2_80
      else if (n =? 129)%N then Some WsE2_81
      else None
  | WsE2_80 =>
      if ((128 <=? n) && (n <=? 138))%N || (n =? 168)%N || (n =? 169)%N
         || (n =? 175)%N
      then Some WsStart else None
  | WsE2_81 => if (n =? 159)%N then Some WsStart else None
  | WsE3 => if (n =? 128)%N then Some WsE3_80 else None
  | WsE3_80 => if (n =? 128)%N then Some WsStart else None
  | WsEF => if (n =? 187)%N then Some WsEF_BB else None
  | WsEF_BB => if (n =? 191)%N then Some WsStart else None
  end.

Fixpoint all_space_from (st : ws_state) (s : string) : bool :=
  match s with
  | EmptyString => match st with WsStart => true | _ => false end
  | String c s' =>
      match ws_next st c with
      | Some st' => all_space_from st' s'
      | None => false
      end
  end.

(** Truthiness of [s.trim()]. *)
Definition trim_truthy (s : string) : bool := negb (all_space_from WsStart s).

(** [arr.findIndex(p)], with [None] for [-1]. *)
Fixpoint findIndex {A : Type} (p : A -> bool) (l : list A) : option nat :=
  match l with
  | [] => None
  | x :: l' => if p x then Some 0%nat else option_map S (findIndex p l')
  end.

(** [arr.sort(cmp)].  The sort of the language is stable, and for a
    comparator that orders its arguments consistently its result does not
    depend on the algorithm: each element is placed before the first one it
    does not have to follow. *)
Fixpoint sort_insert {A : Type} (cmp : A -> A -> Z) (x : A) (l : list A) : list A :=
  match l with
  | [] => [x]
  | y :: l' => if (cmp x y <=? 0)%Z then x :: y :: l' else y :: sort_insert cmp x l'
  end.

Fixpoint sort {A : Type} (cmp : A -> A -> Z) (l : list A) : list A :=
  match l with
  | [] => []
  | x :: l' => sort_insert cmp x (sort cmp l')
  end.

(** Truthiness of a number: every value but [0], [-0] and [NaN]. *)
Definition truthy_number (x : float) : bool :=
  negb (PrimFloat.eqb x 0 || PrimFloat.is_nan x).

(** [Math.floor] on a binary64 value: the mantissa is shifted right by the
    (negative) exponent, rounding towards minus infinity; values that are
    already integral, infinities and [NaN] are returned as they are. *)
Definition Math_floor (x : float) : float :=
  match Prim2SF x with
  | S754_finite s m e =>
      if (0 <=? e)%Z then x
      else
        let q := Z.shiftr (Z.pos m) (- e) in
        let exact := Z.eqb (Z.shiftl q (- e)) (Z.pos m) in
        let n := if s then (if exact then - q else - q - 1) else q in
        if Z.eqb n 0 then (if s then (-0)%float else 0%float)
        else SF2Prim (binary_normalize prec emax n 0 false)
  | _ => x
  end.

End Js.

(** ** ToolActivityItem.tsx *)

Module ToolActivityItem.

(** A value of type [unknown] found in a tool input: only whether it is a
    string, and which, is ever inspected. *)
Inductive unknown : Type :=
  | VString (s : string)
  | VOther.

Record DiffStats : Type := mkDiffStats { additions : Z; deletions : Z }.

(** [typeof input.k === 'string' ? input.k : ''] *)
Definition string_field (input : gmap string unknown) (k : string) : string :=
  match input !! k with
  | Some (VString s) => s
  | _ => EmptyString
  end.

Definition computeDiffStats (toolName : string) (input : gmap string unknown)
  : option DiffStats :=
  if String.eqb toolName "Edit" then
    let oldStr := string_field input "old_string" in
    let newStr := string_field input "new_string" in
    if negb (Js.truthy_string oldStr) && negb (Js.truthy_string newStr) then None
    else
      let oldLines := Z.of_nat (List.length (Js.split Js.LF oldStr)) in
      let newLines := Z.of_nat (List.length (Js.split Js.LF newStr)) in
      Some {| additions := Z.max 0 (newLines - oldLines + 1);
              deletions := Z.max 0 (oldLines - newLines + 1) |}
  else None.

(** The number of lines of a text block, as the source counts them. *)
Definition lines (s : string) : Z := Z.of_nat (List.length (Js.split Js.LF s)).

(** The input of an Edit activity with the two text blocks. *)
Definition edit_input (old_string new_string : string) : gmap string unknown :=
  <["old_string" := VString old_string]> (<["new_string" := VString new_string]> ∅).

(** [ActivityStatus] of [atoms/agent-atoms]: the five states of an activity. *)
Inductive ActivityStatus : Type :=
  | pending
  | running
  | completed
  | error
  | backgrounded.

#[export] Instance ActivityStatus_eq_dec : EqDecision ActivityStatus.
Proof. solve_decision. Defined.

(** The fields of a [ToolActivity] that the rows read. *)
Record ToolActivity : Type := mkToolActivity {
  toolUseId : string;
  toolName : string;
  input : gmap string unknown;
  parentToolUseId : option string;
  result : option string;
  isError : bool;
  done : bool;
  intent : option string;
  displayName : option string;
}.

Record ActivityGroup : Type := mkActivityGroup {
  parent : ToolActivity;
  children : list ToolActivity;
}.

Section DerivedStatus.

(** [getActivityStatus] is imported from [atoms/agent-atoms]; the row only
    calls it on the parent. *)
Variable getActivityStatus : ToolActivity -> ActivityStatus.

(** The body of the [derivedStatus] memo of [ActivityGroupRow]. *)
Definition derivedStatus (group : ActivityGroup) : ActivityStatus :=
  let selfStatus := getActivityStatus (parent group) in
  if bool_decide (selfStatus = completed) || bool_decide (selfStatus = error)
  then selfStatus
  else
    if negb (Nat.eqb (List.length (children group)) 0)
       && forallb done (children group)
    then
      if existsb isError (children group) then error
      else if done (parent group) then completed
      else selfStatus
    else selfStatus.

End DerivedStatus.

(** Modelled from the spec: [getActivityStatus] of [atoms/agent-atoms], which
    is not among the sources.  The spec gives the per-activity state machine
    [pending → running → {completed | error}], with [completed] and [error]
    the terminal states and [done] set exactly when a terminal state is
    reached; an activity that is not done is in flight. *)
Definition getActivityStatus_spec (a : ToolActivity) : ActivityStatus :=
  if done a then (if isError a then error else completed) else running.

(** A child activity of the parent [t1], as the spec's examples have them. *)
Definition child (id name : string) (finished failed : bool) : ToolActivity :=
  {| toolUseId := id; toolName := name; input := ∅;
     parentToolUseId := Some "t1"%string; result := None;
     isError := failed; done := finished; intent := None; displayName := None |}.

(** A [Task] parent that has not signalled its end. *)
Definition running_task : ToolActivity :=
  {| toolUseId := "t1"; toolName := "Task"; input := ∅;
     parentToolUseId := None; result := None;
     isError := false; done := false; intent := None; displayName := None |}.

Definition two_clean_children : list ToolActivity :=
  [child "b" "Edit" true false; child "c" "Read" true false].

Definition one_failed_child : list ToolActivity :=
  [child "b" "Edit" true false; child "c" "Read" true true].

(** The terminal states. *)
Definition terminal (s : ActivityStatus) : Prop := s = completed \/ s = error.

(** There is a child, and every child is done. *)
Definition all_done (l : list ToolActivity) : Prop :=
  l <> [] /\ (forall c, In c l -> done c = true).

End ToolActivityItem.

(** ** ContextUsageBadge.tsx *)

Module ContextUsageBadge.

Local Open Scope float_scope.

(** 压缩阈值比例 *)
Definition COMPACT_THRESHOLD_RATIO : float := 0.775.
(** 显示警告的阈值 *)
Definition WARNING_RATIO : float := 0.80.

(** What the component renders: the spinner, nothing ([null]), or the button
    with its derived values. *)
Inductive Rendered : Type :=
  | Spinner
  | Null
  | Button (compactThreshold usageRatio : option float)
           (isWarning disabled : bool).

Definition ContextUsageBadge
    (inputTokens contextWindow : option float)
    (isCompacting isProcessing : bool) : Rendered :=
  if isCompacting then Spinner
  else
    match inputTokens with
    | None => Null
    | Some tokens =>
        if negb (Js.truthy_number tokens) || (tokens <=? 0) then Null
        else
          let compactThreshold :=
            match contextWindow with
            | Some cw =>
                if Js.truthy_number cw
                then Some (Js.Math_floor (cw * COMPACT_THRESHOLD_RATIO))
                else None
            | None => None
            end in
          let usageRatio :=
            match compactThreshold with
            | Some th => if Js.truthy_number th then Some (tokens / th) else None
            | None => None
            end in
          let isWarning :=
            match usageRatio with
            | Some r => WARNING_RATIO <=? r
            | None => false
            end in
          Button compactThreshold usageRatio isWarning
                 (negb isWarning || isProcessing)
    end.

(** The state of the monitor, read off what is rendered. *)
Inductive UsageState : Type :=
  | Compacting
  | NoData
  | Normal
  | Warning.

Definition state (r : Rendered) : UsageState :=
  match r with
  | Spinner => Compacting
  | Null => NoData
  | Button _ _ isWarning _ => if isWarning then Warning else Normal
  end.

(** [Math.floor(contextWindow * COMPACT_THRESHOLD_RATIO)] *)
Definition compactThreshold_of (contextWindow : float) : float :=
  Js.Math_floor (contextWindow * COMPACT_THRESHOLD_RATIO).

(** [inputTokens] is absent or not positive ([NaN] is not positive). *)
Definition not_positive (inputTokens : option float) : Prop :=
  match inputTokens with
  | None => True
  | Some tokens => (0 <? tokens) = false
  end.

End ContextUsageBadge.

(** ** The agent session manager *)

Module AgentSessionManager.

(** *** The file system and the effects of the module

    The store holds the content of every regular file by path.  A path in
    [faulty] is one on which reading, writing and appending raise (a missing
    directory, a permission, a full disk); [existsSync] never raises. *)
Record FS : Type := mkFS {
  files : gmap string string;
  faulty : gset string;
}.

(** A computation either returns or throws an [Error] with a message; the
    file system it leaves behind is kept in both cases. *)
Inductive outcome (A : Type) : Type :=
  | Return (a : A)
  | Throw (message : string).
Arguments Return {A} a.
Arguments Throw {A} message.

Definition IO (A : Type) : Type := FS -> outcome A * FS.

Definition ret {A : Type} (a : A) : IO A := fun fs => (Return a, fs).

Definition throw {A : Type} (message : string) : IO A :=
  fun fs => (Throw message, fs).

Definition bind {A B : Type} (c : IO A) (k : A -> IO B) : IO B :=
  fun fs =>
    match c fs with
    | (Return a, fs') => k a fs'
    | (Throw e, fs') => (Throw e, fs')
    end.

(** [try { c } catch (error) { handler }] *)
Definition try_catch {A : Type} (c : IO A) (handler : string -> IO A) : IO A :=
  fun fs =>
    match c fs with
    | (Return a, fs') => (Return a, fs')
    | (Throw e, fs') => handler e fs'
    end.

Declare Scope io_scope.
Delimit Scope io_scope with io.
Notation "x <- c ;; k" := (bind c (fun x => k))
  (at level 100, c at next level, right associativity) : io_scope.
Notation "c ;;; k" := (bind c (fun _ => k))
  (at level 100, right associativity) : io_scope.
Local Open Scope io_scope.

(** [lines.map(f)] with an [f] that may throw: the first failure ends it. *)
Fixpoint mapM {A B : Type} (f : A -> IO B) (l : list A) : IO (list B) :=
  match l with
  | [] => ret []
  | x :: l' => y <- f x ;; ys <- mapM f l' ;; ret (y :: ys)
  end.

Definition existsSync (path : string) : IO bool :=
  fun fs => (Return (bool_decide (is_Some (files fs !! path))), fs).

Definition readFileSync (path : string) : IO string :=
  fun fs =>
    if bool_decide (path ∈ faulty fs) then (Throw "EACCES", fs)
    else match files fs !! path with
         | Some content => (Return content, fs)
         | None => (Throw "ENOENT", fs)
         end.

Definition writeFileSync (path data : string) : IO unit :=
  fun fs =>
    if bool_decide (path ∈ faulty fs) then (Throw "EACCES", fs)
    else (Return tt, {| files := <[path := data]> (files fs); faulty := faulty fs |}).

Definition appendFileSync (path data : string) : IO unit :=
  fun fs =>
    if bool_decide (path ∈ faulty fs) then (Throw "EACCES", fs)
    else
      let old := default EmptyString (files fs !! path) in
      (Return tt,
       {| files := <[path := String.append old data]> (files fs);
          faulty := faulty fs |}).

(** *** Data *)

Record AgentSessionMeta : Type := mkMeta {
  id : string;
  title : string;
  channelId : option string;
  workspaceId : option string;
  sdkSessionId : option string;
  createdAt : Z;
  updatedAt : Z;
}.

(** 会话索引文件格式 *)
Record AgentSessionsIndex : Type := mkIndex {
  version : Z;
  sessions : list AgentSessionMeta;
}.

(** 当前索引版本 *)
Definition INDEX_VERSION : Z := 1.

(** [Partial<Pick<AgentSessionMeta, 'title' | 'channelId' | 'sdkSessionId' |
    'workspaceId'>>]: a key is absent ([None]) or present; a present optional
    field may hold [undefined] ([Some None]). *)
Record MetaUpdates : Type := mkUpdates {
  u_title : option string;
  u_channelId : option (option string);
  u_sdkSessionId : option (option string);
  u_workspaceId : option (option string);
}.

Record AgentWorkspace : Type := mkWorkspace {
  ws_id : string;
  slug : string;
  name : string;
}.

(** What the module imports: the paths of [config-paths], the workspace
    lookup of [agent-workspace-manager], the message type of the shared
    package, and [JSON.parse] / [JSON.stringify] at the two types they are
    used at ([None] for a [SyntaxError]; the cast [as AgentSessionsIndex] of
    the source is taken at its word).  The functions of [config-paths] that
    create directories are computations; the two that only name a file are
    values. *)
Class Host : Type := {
  AgentMessage : Type;
  getAgentSessionsIndexPath : string;
  getAgentSessionsDir : IO string;
  getAgentSessionMessagesPath : string -> string;
  getAgentSessionWorkspacePath : string -> string -> IO string;
  getAgentWorkspace : string -> IO (option AgentWorkspace);
  JSON_parse_index : string -> option AgentSessionsIndex;
  JSON_stringify_index : AgentSessionsIndex -> string;
  JSON_parse_message : string -> option AgentMessage;
  JSON_stringify_message : AgentMessage -> string;
}.

Section Manager.

Context {host : Host}.

Definition emptyIndex : AgentSessionsIndex :=
  {| version := INDEX_VERSION; sessions := [] |}.

Definition of_parse {A : Type} (parsed : option A) : IO A :=
  match parsed with
  | Some a => ret a
  | None => throw "SyntaxError"
  end.

(** 读取会话索引文件 *)
Definition readIndex : IO AgentSessionsIndex :=
  let indexPath := getAgentSessionsIndexPath in
  present <- existsSync indexPath ;;
  if negb present then ret emptyIndex
  else
    try_catch
      (raw <- readFileSync indexPath ;; of_parse (JSON_parse_index raw))
      (fun _ => ret emptyIndex).

(** 写入会话索引文件 *)
Definition writeIndex (index : AgentSessionsIndex) : IO unit :=
  let indexPath := getAgentSessionsIndexPath in
  try_catch
    (writeFileSync indexPath (JSON_stringify_index index))
    (fun _ => throw "写入 Agent 会话索引失败").

(** 获取所有会话（按 updatedAt 降序） *)
Definition listAgentSessions : IO (list AgentSessionMeta) :=
  index <- readIndex ;;
  ret (Js.sort (fun a b => updatedAt b - updatedAt a) (sessions index)).

(** 获取单个会话的元数据 *)
Definition getAgentSessionMeta (sid : string) : IO (option AgentSessionMeta) :=
  index <- readIndex ;;
  ret (List.find (fun s => String.eqb (id s) sid) (sessions index)).

(** 创建新会话; [uuid] is the value of [randomUUID()] and [now] that of
    [Date.now()]. *)
Definition createAgentSession (uuid : string) (now : Z)
    (title_arg channelId_arg workspaceId_arg : option string)
  : IO AgentSessionMeta :=
  index <- readIndex ;;
  let meta :=
    {| id := uuid;
       title := Js.or_default title_arg "新 Agent 会话";
       channelId := channelId_arg;
       workspaceId := workspaceId_arg;
       sdkSessionId := None;
       createdAt := now;
       updatedAt := now |} in
  writeIndex {| version := version index; sessions := sessions index ++ [meta] |} ;;;
  getAgentSessionsDir ;;;
  match workspaceId_arg with
  | Some w =>
      if Js.truthy_string w then
        ws <- getAgentWorkspace w ;;
        match ws with
        | Some ws => getAgentSessionWorkspacePath (slug ws) (id meta) ;;; ret tt
        | None => ret tt
        end
      else ret tt
  | None => ret tt
  end ;;;
  ret meta.

(** [(line) => JSON.parse(line) as AgentMessage] *)
Definition parse_line (line : string) : IO AgentMessage :=
  of_parse (JSON_parse_message line).

(** The lines of a transcript that are parsed: those that are not blank. *)
Definition parsed_lines (raw : string) : list string :=
  List.filter Js.trim_truthy (Js.split Js.LF raw).

(** 读取会话的所有消息 *)
Definition getAgentSessionMessages (sid : string) : IO (list AgentMessage) :=
  let filePath := getAgentSessionMessagesPath sid in
  present <- existsSync filePath ;;
  if negb present then ret []
  else
    try_catch
      (raw <- readFileSync filePath ;;
       let lines := List.filter Js.trim_truthy (Js.split Js.LF raw) in
       mapM parse_line lines)
      (fun _ => ret []).

(** 追加一条消息到会话的 JSONL 文件 *)
Definition appendAgentMessage (sid : string) (message : AgentMessage) : IO unit :=
  let filePath := getAgentSessionMessagesPath sid in
  try_catch
    (let line := String.append (JSON_stringify_message message) (String Js.LF EmptyString) in
     appendFileSync filePath line)
    (fun _ => throw "追加 Agent 消息失败").

(** [{ ...existing, ...updates, updatedAt: Date.now() }] *)
Definition merge_updates (existing : AgentSessionMeta) (updates : MetaUpdates)
    (now : Z) : AgentSessionMeta :=
  {| id := id existing;
     title := default (title existing) (u_title updates);
     channelId := default (channelId existing) (u_channelId updates);
     workspaceId := default (workspaceId existing) (u_workspaceId updates);
     sdkSessionId := default (sdkSessionId existing) (u_sdkSessionId updates);
     createdAt := createdAt existing;
     updatedAt := now |}.

(** 更新会话元数据 *)
Definition updateAgentSessionMeta (now : Z) (sid : string) (updates : MetaUpdates)
  : IO AgentSessionMeta :=
  index <- readIndex ;;
  match Js.findIndex (fun s => String.eqb (id s) sid) (sessions index) with
  | None => throw (String.append "Agent 会话不存在: " sid)
  | Some idx =>
      match sessions index !! idx with
      | None => throw "TypeError" (* not reached: [idx] is a position of the array *)
      | Some existing =>
          let updated := merge_updates existing updates now in
          writeIndex {| version := version index;
                        sessions := <[idx := updated]> (sessions index) |} ;;;
          ret updated
      end
  end.

(** The three imported calls of [createAgentSession] return on every file
    system. *)
Definition helpers_return : Prop :=
  (forall fs, exists d fs', getAgentSessionsDir fs = (Return d, fs'))
  /\ (forall w fs, exists r fs', getAgentWorkspace w fs = (Return r, fs'))
  /\ (forall s i fs, exists p fs',
        getAgentSessionWorkspacePath s i fs = (Return p, fs')).

(** Appending a sequence of messages, one call after the other; the first
    failure propagates. *)
Fixpoint appendAll (sid : string) (messages : list AgentMessage) : IO unit :=
  match messages with
  | [] => ret tt
  | m :: rest => appendAgentMessage sid m ;;; appendAll sid rest
  end.

(** The content of a transcript to which the messages were appended, one
    after the other, starting from nothing. *)
Fixpoint jsonl (messages : list AgentMessage) : string :=
  match messages with
  | [] => EmptyString
  | m :: rest =>
      String.append (JSON_stringify_message m) (String Js.LF (jsonl rest))
  end.

(** The transcript of [sid] holds exactly the lines of [messages]; no file at
    all counts as the transcript of no message. *)
Definition transcript_is (sid : string) (messages : list AgentMessage) (fs : FS)
  : Prop :=
  (getAgentSessionMessagesPath sid ∉ faulty fs)
  /\ (files fs !! getAgentSessionMessagesPath sid = Some (jsonl messages)
      \/ (files fs !! getAgentSessionMessagesPath sid = None /\ messages = [])).

End Manager.

End AgentSessionManager.

(** ** A host for the examples

    The examples need one concrete instance of what the session manager
    imports.  Messages are plain strings here, and the serialisation writes
    the number of a value (all types involved are countable) in binary after
    a [#]: one line, never blank, and read back exactly. *)

Module ExampleHost.

Import AgentSessionManager.

Fixpoint bits (p : positive) : string :=
  match p with
  | xH => EmptyString
  | xO q => String "0" (bits q)
  | xI q => String "1" (bits q)
  end.

Fixpoint of_bits (s : string) : option positive :=
  match s with
  | EmptyString => Some xH
  | String c s' =>
      if Ascii.eqb c "0" then option_map xO (of_bits s')
      else if Ascii.eqb c "1" then option_map xI (of_bits s')
      else None
  end.

Definition stringify {A : Type} `{Countable A} (a : A) : string :=
  String "#" (bits (encode a)).

Definition parse {A : Type} `{Countable A} (s : string) : option A :=
  match s with
  | String c s' =>
      if Ascii.eqb c "#" then
        match of_bits s' with
        | Some p => decode p
        | None => None
        end
      else None
  | EmptyString => None
  end.

#[export] Instance AgentSessionMeta_eq_dec : EqDecision AgentSessionMeta.
Proof. solve_decision. Defined.

#[export] Instance AgentSessionsIndex_eq_dec : EqDecision AgentSessionsIndex.
Proof. solve_decision. Defined.

Definition meta_to_tuple (m : AgentSessionMeta) :=
  (id m, title m, channelId m, workspaceId m, sdkSessionId m,
   createdAt m, updatedAt m).

Definition meta_of_tuple
    (t : string * string * option string * option string * option string * Z * Z)
  : AgentSessionMeta :=
  let '(i, t, c, w, s, ca, ua) := t in mkMeta i t c w s ca ua.

#[export] Instance AgentSessionMeta_countable : Countable AgentSessionMeta.
Proof.
  apply (inj_countable' meta_to_tuple meta_of_tuple). intros []; reflexivity.
Defined.

#[export] Instance AgentSessionsIndex_countable : Countable AgentSessionsIndex.
Proof.
  apply (inj_countable' (fun i => (version i, sessions i))
                        (fun p => mkIndex (fst p) (snd p))).
  intros []; reflexivity.
Defined.

#[export] Instance example_host : Host := {|
  AgentMessage := string;
  getAgentSessionsIndexPath := "/home/u/.proma/agent-sessions.json";
  getAgentSessionsDir := ret "/home/u/.proma/agent-sessions";
  getAgentSessionMessagesPath := fun sid =>
    String.append "/home/u/.proma/agent-sessions/" (String.append sid ".jsonl");
  getAgentSessionWorkspacePath := fun slug sid =>
    ret (String.append "/home/u/.proma/agent-workspaces/"
           (String.append slug (String.append "/" sid)));
  getAgentWorkspace := fun _ => ret None;
  JSON_parse_index := parse;
  JSON_stringify_index := stringify;
  JSON_parse_message := parse;
  JSON_stringify_message := stringify;
|}.

Definition empty_fs : FS := {| files := ∅; faulty := ∅ |}.

Definition session_a : AgentSessionMeta :=
  mkMeta "a" "first" None None None 10 10.

Definition session_b : AgentSessionMeta :=
  mkMeta "b" "second" (Some "ch"%string) None None 20 30.

(** A file system whose index holds the two sessions. *)
Definition two_sessions_fs : FS :=
  {| files := {[ "/home/u/.proma/agent-sessions.json"%string :=
                   stringify (mkIndex 1 [session_a; session_b]) ]};
     faulty := ∅ |}.

(** A transcript whose second line is cut short. *)
Definition torn_transcript_fs : FS :=
  {| files := {[ "/home/u/.proma/agent-sessions/s1.jsonl"%string :=
                   String.append (stringify "hello"%string)
                     (String Js.LF (String.append "#01x" (String Js.LF EmptyString))) ]};
     faulty := ∅ |}.

Definition rename_to (new_title : string) : MetaUpdates :=
  {| u_title := Some new_title; u_channelId := None;
     u_sdkSessionId := None; u_workspaceId := None |}.

End ExampleHost.

(** ** The workspace watcher *)

Module WorkspaceWatcher.

Local Open Scope N_scope.

(** debounce 延迟（ms） *)
Definition DEBOUNCE_MS : N := 500.

(** The two channels of [AGENT_IPC_CHANNELS] the watcher sends on. *)
Inductive Channel : Type :=
  | CAPABILITIES_CHANGED
  | WORKSPACE_FILES_CHANGED.

#[export] Instance Channel_eq_dec : EqDecision Channel.
Proof. solve_decision. Defined.

(** One call of [win.webContents.send]: when, to which window, on which
    channel. *)
Record Delivery : Type := mkDelivery {
  at_time : N;
  to_win : nat;
  channel : Channel;
}.

#[export] Instance Delivery_eq_dec : EqDecision Delivery.
Proof. solve_decision. Defined.

(** What one call of [startWorkspaceWatcher] that reached [watch] leaves
    behind: the [FSWatcher] (open until [close]), the window captured by the
    callback, and the two timer variables of the closure.  A timer variable
    holds [Some deadline] while a timeout is pending and [None] ([null])
    otherwise. *)
Record Instance : Type := mkInstance {
  win : nat;
  closed : bool;
  capabilitiesTimer : option N;
  filesTimer : option N;
}.

(** The process: the clock in milliseconds, whether the watched directory
    exists, the windows that are destroyed, the module variable [watcher]
    (the position of the instance it refers to), every instance created so
    far, and the notifications sent, oldest first. *)
Record World : Type := mkWorld {
  now : N;
  watchDirExists : bool;
  destroyed : gset nat;
  watcher : option nat;
  instances : list Instance;
  sent : list Delivery;
}.

Definition backslash : string := String (ascii_of_N 92) EmptyString.

Definition isCapabilitiesChange (filename : string) : bool :=
  Js.endsWith "/mcp.json" filename
  || Js.endsWith (String.append backslash "mcp.json") filename
  || Js.includes "/skills/" filename
  || Js.includes (String.append backslash "skills/") filename.

Definition category (filename : string) : Channel :=
  if isCapabilitiesChange filename then CAPABILITIES_CHANGED
  else WORKSPACE_FILES_CHANGED.

Definition isDestroyed (w : World) (window : nat) : bool :=
  bool_decide (window ∈ destroyed w).

(** The callback given to [watch], run for one raw event on the closure of
    one instance: [clearTimeout] followed by [setTimeout] replaces the
    pending deadline. *)
Definition on_change (w : World) (filename : option string) (i : Instance)
  : Instance :=
  match filename with
  | None => i
  | Some f =>
      if negb (Js.truthy_string f) || isDestroyed w (win i) then i
      else if isCapabilitiesChange f then
        {| win := win i; closed := closed i;
           capabilitiesTimer := Some (now w + DEBOUNCE_MS);
           filesTimer := filesTimer i |}
      else
        {| win := win i; closed := closed i;
           capabilitiesTimer := capabilitiesTimer i;
           filesTimer := Some (now w + DEBOUNCE_MS) |}
  end.

(** A closed [FSWatcher] calls back no more. *)
Definition deliver_change (w : World) (filename : option string) (i : Instance)
  : Instance :=
  if closed i then i else on_change w filename i.

(** The timeout callback of one timer variable at time [t]: it sends unless
    the window is destroyed, and resets the variable. *)
Definition fire (t : N) (alive : bool) (window : nat) (c : Channel)
    (timer : option N) : option N * list Delivery :=
  match timer with
  | Some deadline =>
      if deadline <=? t
      then (None, if alive then [mkDelivery t window c] else [])
      else (Some deadline, [])
  | None => (None, [])
  end.

Definition tick_instance (w : World) (t : N) (i : Instance)
  : Instance * list Delivery :=
  let alive := negb (isDestroyed w (win i)) in
  let c := fire t alive (win i) CAPABILITIES_CHANGED (capabilitiesTimer i) in
  let f := fire t alive (win i) WORKSPACE_FILES_CHANGED (filesTimer i) in
  ({| win := win i; closed := closed i;
      capabilitiesTimer := fst c; filesTimer := fst f |},
   snd c ++ snd f).

Fixpoint tick_all (w : World) (t : N) (l : list Instance)
  : list Instance * list Delivery :=
  match l with
  | [] => ([], [])
  | i :: l' =>
      let r := tick_instance w t i in
      let rs := tick_all w t l' in
      (fst r :: fst rs, snd r ++ snd rs)
  end.

Definition close (i : Instance) : Instance :=
  {| win := win i; closed := true;
     capabilitiesTimer := capabilitiesTimer i; filesTimer := filesTimer i |}.

Definition startWorkspaceWatcher (window : nat) (w : World) : World :=
  if negb (watchDirExists w) then w
  else
    {| now := now w; watchDirExists := watchDirExists w;
       destroyed := destroyed w;
       watcher := Some (List.length (instances w));
       instances := instances w ++ [mkInstance window false None None];
       sent := sent w |}.

Definition stopWorkspaceWatcher (w : World) : World :=
  match watcher w with
  | Some k =>
      {| now := now w; watchDirExists := watchDirExists w;
         destroyed := destroyed w;
         watcher := None;
         instances := alter close k (instances w);
         sent := sent w |}
  | None => w
  end.

(** What can happen to the process: the two exported functions, a raw event
    of [fs.watch] (with its file name, if any), the destruction of a window,
    and the passing of one millisecond, at the end of which the timeouts that
    are due run. *)
Inductive Action : Type :=
  | Start (window : nat)
  | Stop
  | Change (filename : option string)
  | Destroy (window : nat)
  | Tick.

Definition step (a : Action) (w : World) : World :=
  match a with
  | Start window => startWorkspaceWatcher window w
  | Stop => stopWorkspaceWatcher w
  | Change filename =>
      {| now := now w; watchDirExists := watchDirExists w;
         destroyed := destroyed w; watcher := watcher w;
         instances := List.map (deliver_change w filename) (instances w);
         sent := sent w |}
  | Destroy window =>
      {| now := now w; watchDirExists := watchDirExists w;
         destroyed := {[window]} ∪ destroyed w; watcher := watcher w;
         instances := instances w;
         sent := sent w |}
  | Tick =>
      let t := now w + 1 in
      let r := tick_all w t (instances w) in
      {| now := t; watchDirExists := watchDirExists w;
         destroyed := destroyed w; watcher := watcher w;
         instances := fst r;
         sent := sent w ++ snd r |}
  end.

Fixpoint run (trace : list Action) (w : World) : World :=
  match trace with
  | [] => w
  | a :: trace' => run trace' (step a w)
  end.

(** The process at time 0, before any call, with the directory present. *)
Definition boot : World :=
  {| now := 0; watchDirExists := true; destroyed := ∅; watcher := None;
     instances := []; sent := [] |}.

(** [ms] milliseconds passing. *)
Definition wait (ms : nat) : list Action := repeat Tick ms.

(** The notifications of one channel, as times. *)
Definition times_on (c : Channel) (l : list Delivery) : list N :=
  List.map at_time (List.filter (fun d => bool_decide (channel d = c)) l).

Definition sent_on (c : Channel) (w : World) : list N := times_on c (sent w).

(** The timer variable of a channel. *)
Definition timer_of (c : Channel) (i : Instance) : option N :=
  match c with
  | CAPABILITIES_CHANGED => capabilitiesTimer i
  | WORKSPACE_FILES_CHANGED => filesTimer i
  end.

(** One watcher is running, for a window that is not destroyed. *)
Definition live (w : World) (i : Instance) : Prop :=
  instances w = [i] /\ closed i = false /\ win i ∉ destroyed w.

(** *** The debounce rule in the words of the specification

    The raw events of one category, as the times at which they arrive in a
    trace that starts at [clock]. *)
Fixpoint event_times (c : Channel) (clock : N) (trace : list Action) : list N :=
  match trace with
  | [] => []
  | Tick :: trace' => event_times c (clock + 1) trace'
  | Change (Some f) :: trace' =>
      if Js.truthy_string f && bool_decide (category f = c)
      then clock :: event_times c clock trace'
      else event_times c clock trace'
  | _ :: trace' => event_times c clock trace'
  end.

(** An event notifies, one window later, exactly when no further event of its
    category arrives within the window; [horizon] is the time up to which the
    process was observed. *)
Fixpoint debounced (times : list N) (horizon : N) : list N :=
  match times with
  | [] => []
  | t :: later =>
      let quiet_until := match later with [] => horizon | t' :: _ => t' end in
      if t + DEBOUNCE_MS <=? quiet_until
      then (t + DEBOUNCE_MS) :: debounced later horizon
      else debounced later horizon
  end.

(** Events that follow one another within the window. *)
Fixpoint within_window (times : list N) : Prop :=
  match times with
  | t :: ((t' :: _) as later) => t' < t + DEBOUNCE_MS /\ within_window later
  | _ => True
  end.

(** Traces of raw events and passing time only. *)
Definition raw_only (trace : list Action) : Prop :=
  Forall (fun a => match a with Change _ | Tick => True | _ => False end) trace.

Definition no_start (trace : list Action) : Prop :=
  Forall (fun a => match a with Start _ => False | _ => True end) trace.

Definition drop_changes (trace : list Action) : list Action :=
  List.filter (fun a => match a with Change _ => false | _ => true end) trace.

Definition pending (i : Instance) : nat :=
  (match capabilitiesTimer i with Some _ => 1 | None => 0 end
   + match filesTimer i with Some _ => 1 | None => 0 end)%nat.

Definition pending_timers (w : World) : nat :=
  list_sum (List.map pending (instances w)).

Definition all_closed (w : World) : Prop :=
  Forall (fun i => closed i = true) (instances w).

(** Every open instance is the one the module variable refers to: what holds
    as long as [startWorkspaceWatcher] is only called while [watcher] is
    [null]. *)
Definition tracked (w : World) : Prop :=
  forall k i, instances w !! k = Some i -> closed i = false -> watcher w = Some k.

(** [startWorkspaceWatcher] is only called while no watcher is recorded:
    cycles of start and stop. *)
Fixpoint in_cycles (trace : list Action) (w : World) : Prop :=
  match trace with
  | [] => True
  | a :: trace' =>
      match a with Start _ => watcher w = None | _ => True end
      /\ in_cycles trace' (step a w)
  end.

Definition sent_to (window : nat) (w : World) : list Delivery :=
  List.filter (fun d => bool_decide (to_win d = window)) (sent w).

(** *** Worlds and traces of the examples *)

(** A watcher is started for window 0 and sees one change of an MCP
    configuration. *)
Definition armed : World :=
  run [Start 0%nat; Change (Some "default/mcp.json"%string)] boot.

(** ... and is stopped 100ms later, the debounce timer still pending. *)
Definition armed_then_stopped : World := run (wait 100 ++ [Stop]) armed.

(** ... or its window is destroyed 100ms later. *)
Definition armed_then_destroyed : World :=
  run (wait 100 ++ [Destroy 0%nat]) armed.

(** Five changes of one file, 50ms apart, then a quiet second. *)
Definition five_changes (filename : string) : list Action :=
  Change (Some filename) :: wait 50 ++
  Change (Some filename) :: wait 50 ++
  Change (Some filename) :: wait 50 ++
  Change (Some filename) :: wait 50 ++
  Change (Some filename) :: wait 1000.

(** The same, with a change of an unrelated file in the middle. *)
Definition five_changes_and_another (filename other : string) : list Action :=
  Change (Some filename) :: wait 50 ++
  Change (Some filename) :: wait 50 ++
  Change (Some filename) :: wait 20 ++
  Change (Some other) :: wait 30 ++
  Change (Some filename) :: wait 50 ++
  Change (Some filename) :: wait 1000.

(** The path of a skill file as [fs.watch] reports it, with the separators
    of POSIX and of Windows. *)
Definition skill_path_posix : string := "default/skills/foo/SKILL.md".

Definition skill_path_windows : string :=
  String.append "default"
    (String.append backslash
       (String.append "skills"
          (String.append backslash
             (String.append "foo" (String.append backslash "SKILL.md"))))).

(** A started watcher that has seen nothing yet. *)
Definition started : World := run [Start 0%nat] boot.

End WorkspaceWatcher.

(** ** More of the session manager: removal *)

Module AgentSessionRemoval.

Import AgentSessionManager.
Local Open Scope io_scope.

(** [unlinkSync(path)]: removes a regular file; raises on a faulty path and
    on a path that holds no file. *)
Definition unlinkSync (path : string) : IO unit :=
  fun fs =>
    if bool_decide (path ∈ faulty fs) then (Throw "EACCES", fs)
    else match files fs !! path with
         | Some _ =>
             (Return tt,
              {| files := delete path (files fs); faulty := faulty fs |})
         | None => (Throw "ENOENT", fs)
         end.

(** The store keeps regular files only.  Whether the directory of a session
    exists ([existsSync] on that directory) and its recursive removal
    ([rmSync] with [recursive] and [force]) are taken from the host. *)
Class Directories : Type := {
  directoryExists : string -> IO bool;
  rmSync : string -> IO unit;
}.

Section Removal.

Context {host : Host} {dirs : Directories}.

(** 删除消息文件: the block of [deleteAgentSession] that removes the
    transcript, best effort. *)
Definition removeTranscript (sid : string) : IO unit :=
  let filePath := getAgentSessionMessagesPath sid in
  present <- existsSync filePath ;;
  if present then try_catch (unlinkSync filePath) (fun _ => ret tt)
  else ret tt.

(** 清理 session 工作目录: the block that removes the directory of the
    session below its workspace, best effort once the workspace is found. *)
Definition removeSessionDirectory (removed : AgentSessionMeta) (sid : string)
  : IO unit :=
  match workspaceId removed with
  | Some w =>
      if Js.truthy_string w then
        ws <- getAgentWorkspace w ;;
        match ws with
        | Some ws =>
            try_catch
              (sessionDir <- getAgentSessionWorkspacePath (slug ws) sid ;;
               present <- directoryExists sessionDir ;;
               if present then rmSync sessionDir else ret tt)
              (fun _ => ret tt)
        | None => ret tt
        end
      else ret tt
  | None => ret tt
  end.

(** 删除会话 *)
Definition deleteAgentSession (sid : string) : IO unit :=
  index <- readIndex ;;
  match Js.findIndex (fun s => String.eqb (id s) sid) (sessions index) with
  | None => throw (String.append "Agent 会话不存在: " sid)
  | Some idx =>
      match sessions index !! idx with
      | None => throw "TypeError" (* not reached: [idx] is a position of the array *)
      | Some removed =>
          writeIndex {| version := version index;
                        sessions := delete idx (sessions index) |} ;;;
          removeTranscript sid ;;;
          removeSessionDirectory removed sid
      end
  end.

(** A computation of the host leaves the index file and the transcript of
    [sid] as they are, whether it returns or throws. *)
Definition keeps_session_files {A : Type} (sid : string) (c : IO A) : Prop :=
  forall fs,
    faulty (snd (c fs)) = faulty fs
    /\ files (snd (c fs)) !! getAgentSessionsIndexPath
       = files fs !! getAgentSessionsIndexPath
    /\ files (snd (c fs)) !! getAgentSessionMessagesPath sid
       = files fs !! getAgentSessionMessagesPath sid.

(** What the removal of [sid] asks of the host: the workspace lookup
    returns, and it and the directory operations keep the two files of the
    session manager. *)
Definition host_keeps_session_files (sid : string) : Prop :=
  (forall w, keeps_session_files sid (getAgentWorkspace w)
             /\ forall fs, exists r, fst (getAgentWorkspace w fs) = Return r)
  /\ (forall s, keeps_session_files sid (getAgentSessionWorkspacePath s sid))
  /\ (forall d, keeps_session_files sid (directoryExists d))
  /\ (forall d, keeps_session_files sid (rmSync d)).

End Removal.

(** The store after [writeIndex] succeeded. *)
Definition written {host : Host} (fs : FS) (index : AgentSessionsIndex) : FS :=
  {| files := <[getAgentSessionsIndexPath := JSON_stringify_index index]> (files fs);
     faulty := faulty fs |}.

(** The helpers of [config-paths] and of the workspace manager that
    [createAgentSession] calls return and leave the file store as it is
    (they create directories at most). *)
Definition helpers_quiet {host : Host} : Prop :=
  (forall fs, exists d, getAgentSessionsDir fs = (Return d, fs))
  /\ (forall w fs, exists r, getAgentWorkspace w fs = (Return r, fs))
  /\ (forall s i fs, exists p, getAgentSessionWorkspacePath s i fs = (Return p, fs)).

End AgentSessionRemoval.

Module RemovalExample.

Import AgentSessionManager AgentSessionRemoval ExampleHost.

(** A host without session directories, and a store with
    two sessions, the second with a transcript of two messages. *)

#[export] Instance example_dirs : Directories := {|
  directoryExists := fun _ => ret false;
  rmSync := fun _ => ret tt;
|}.

Definition session_in_workspace : AgentSessionMeta :=
  mkMeta "b" "second" (Some "ch"%string) (Some "ws1"%string) None 20 30.

Definition stored_sessions_fs : FS :=
  {| files :=
       <["/home/u/.proma/agent-sessions.json"%string :=
           stringify
             (mkIndex 1 [session_a; session_in_workspace])]>
       (<["/home/u/.proma/agent-sessions/b.jsonl"%string :=
            jsonl (host := example_host) ["hi"; "there"]%string]> ∅);
     faulty := ∅ |}.

End RemovalExample.

(** ** More of ToolActivityItem.tsx: tool names, file badge, input summary *)

Module JsText.

(** [s.slice(n)] and [s.slice(0, n)], for [n] within the ASCII part of the
    string or at a match of an ASCII pattern, where bytes and code units
    agree. *)
Fixpoint drop (n : nat) (s : string) : string :=
  match n, s with
  | O, _ => s
  | S n', String _ s' => drop n' s'
  | S _, EmptyString => EmptyString
  end.

Fixpoint take (n : nat) (s : string) : string :=
  match n, s with
  | O, _ => EmptyString
  | S n', String c s' => String c (take n' s')
  | S _, EmptyString => EmptyString
  end.

(** [s.indexOf(p)], with [None] for [-1]. *)
Fixpoint indexOf (p s : string) : option nat :=
  if Js.startsWith p s then Some O
  else match s with
       | EmptyString => None
       | String _ s' => option_map S (indexOf p s')
       end.

End JsText.

Module ToolName.

Record McpName : Type := mkMcpName { server : string; tool : string }.

(** 解析 MCP 工具名称：mcp__serverName__toolName → { server, tool } *)
Definition parseMcpToolName (toolName : string) : option McpName :=
  if negb (Js.startsWith "mcp__" toolName) then None
  else
    let rest := JsText.drop 5 toolName in
    match JsText.indexOf "__" rest with
    | None => None
    | Some idx =>
        Some {| server := JsText.take idx rest;
                tool := JsText.drop (idx + 2) rest |}
    end.

(** 格式化工具名称，MCP 工具显示为 "server · tool" *)
Definition formatToolName (toolName : string) : string :=
  match parseMcpToolName toolName with
  | Some mcp => String.append (server mcp) (String.append " · " (tool mcp))
  | None => toolName
  end.

(** The text of [FileBadge]: [path.split('/').pop() ?? path]. *)
Definition FileBadge_filename (path : string) : string :=
  List.last (Js.split "/"%char path) path.

End ToolName.

Module ToolInput.

(** The text values of a tool input are kept as their UTF-16 code units,
    which is what [length] and [slice] count. *)
Definition ustring : Type := list N.

(** The code units of an ASCII literal. *)
Definition ustr (s : string) : ustring :=
  List.map N_of_ascii (list_ascii_of_string s).

(** A value of a tool input as far as the summary looks at it: [null], a
    string, or anything else; an absent key is [undefined]. *)
Inductive value : Type :=
  | VNull
  | VStr (s : ustring)
  | VOther.

(** [a ?? b] *)
Definition nullish_or (a b : option value) : option value :=
  match a with
  | None | Some VNull => b
  | Some _ => a
  end.

(** [s.length > n ? s.slice(0, n) + '…' : s] *)
Definition ellipsis : N := 8230%N.

Definition truncate (n : nat) (s : ustring) : ustring :=
  if (n <? List.length s)%nat then List.firstn n s ++ [ellipsis] else s.

(** One [if (toolName === ...) { ... }] block of the function: [None] when
    control falls through to the next block. *)
Definition clause (applies : bool) (field : option value)
    (render : ustring -> ustring) : option ustring :=
  if applies then
    match field with
    | Some (VStr s) => Some (render s)
    | _ => None
    end
  else None.

Definition or_else (a b : option ustring) : option ustring :=
  match a with
  | Some r => Some r
  | None => b
  end.

Definition getInputSummary (toolName : string) (input : gmap string value)
  : option ustring :=
  or_else (clause (String.eqb toolName "Bash") (input !! "command"%string)
             (truncate 80))
  (or_else (clause (String.eqb toolName "Grep") (input !! "pattern"%string)
              (fun pattern => ustr "/" ++ pattern ++ ustr "/"))
  (or_else (clause (String.eqb toolName "Glob") (input !! "pattern"%string)
              (fun pattern => pattern))
  (or_else (clause (String.eqb toolName "WebFetch" || String.eqb toolName "WebSearch")
              (nullish_or (input !! "url"%string) (input !! "query"%string))
              (truncate 60))
  (or_else (clause (String.eqb toolName "Skill") (input !! "skill"%string)
              (fun skill => skill))
           None)))).

End ToolInput.

(** ** More of the workspace watcher: the raw events of a trace *)

Module WatcherLog.

Import WorkspaceWatcher.
Local Open Scope N_scope.

(** The raw events of a trace that carry a file name, each with the time at
    which it arrives and the category of its path. *)
Fixpoint change_log (clock : N) (trace : list Action) : list (N * Channel) :=
  match trace with
  | [] => []
  | Tick :: trace' => change_log (clock + 1) trace'
  | Change (Some f) :: trace' =>
      if Js.truthy_string f
      then (clock, category f) :: change_log clock trace'
      else change_log clock trace'
  | _ :: trace' => change_log clock trace'
  end.

(** A world in which nothing was started or sent yet. *)
Definition pristine (w : World) : Prop :=
  instances w = [] /\ sent w = [].

End WatcherLog.

Module CompositionExample.

Import AgentSessionManager ExampleHost.

(** A file system whose index file holds something that is not an index. *)
Definition corrupt_index_fs : FS :=
  {| files := {[ "/home/u/.proma/agent-sessions.json"%string := "not json"%string ]};
     faulty := ∅ |}.

(** A file system on which the index cannot be written. *)
Definition read_only_fs : FS :=
  {| files := ∅; faulty := {[ "/home/u/.proma/agent-sessions.json"%string ]} |}.

End CompositionExample.

Module DiffBadge.

Import ToolActivityItem.

(** What [DiffBadges] renders: the badge of the deletions, then the badge of
    the additions, each only when its count is positive. *)
Inductive Badge : Type :=
  | Minus (n : Z)
  | Plus (n : Z).

Definition DiffBadges (stats : DiffStats) : list Badge :=
  (if 0 <? deletions stats then [Minus (deletions stats)] else [])
  ++ (if 0 <? additions stats then [Plus (additions stats)] else []).

End DiffBadge.

Module WatcherSafety.

Import WorkspaceWatcher WatcherLog.
Local Open Scope N_scope.

(** A deadline or a notification at time [t] on channel [c] is explained by a
    log of raw events when the log has an event of that category one window
    earlier. *)
Definition explained (log : list (N * Channel)) (t : N) (c : Channel) : Prop :=
  exists t0, t = t0 + DEBOUNCE_MS /\ In (t0, c) log.

(** No timer is pending. *)
Definition idle (w : World) : Prop :=
  Forall (fun i => capabilitiesTimer i = None /\ filesTimer i = None)
         (instances w).

(** Every pending deadline lies in the future and is explained by the log,
    and so is every notification that is not among [old]. *)
Definition justified (old : list Delivery) (log : list (N * Channel))
    (w : World) : Prop :=
  Forall (fun i => forall c d, timer_of c i = Some d ->
                     now w < d /\ explained log d c) (instances w)
  /\ Forall (fun dl => In dl old \/ explained log (at_time dl) (channel dl))
            (sent w).

(** The watcher at position [k] is open, belongs to [window], and is not the
    one the module variable refers to. *)
Definition leaked (k window : nat) (w : World) : Prop :=
  (exists i, instances w !! k = Some i /\ closed i = false /\ win i = window)
  /\ watcher w <> Some k.

(** The process at time 0 on a machine where the directory of the
    workspaces was never created. *)
Definition no_directory : World :=
  {| now := 0; watchDirExists := false; destroyed := ∅; watcher := None;
     instances := []; sent := [] |}.

End WatcherSafety.

(** * Properties *)

(** ** Diff statistics and group status *)

Section ToolActivityItemFacts.

Import ToolActivityItem.

Lemma string_field_edit_old (o n : string) :
  string_field (edit_input o n) "old_string" = o.
Proof. reflexivity. Qed.

Lemma string_field_edit_new (o n : string) :
  string_field (edit_input o n) "new_string" = n.
Proof. reflexivity. Qed.

Lemma split_not_nil (sep : ascii) (s : string) : Js.split sep s <> [].
Proof.
  destruct s as [|c s]; simpl; [discriminate|].
  destruct (Ascii.eqb c sep); [discriminate|].
  destruct (Js.split sep s); discriminate.
Qed.

Lemma lines_pos (s : string) : 1 <= lines s.
Proof.
  unfold lines. pose proof (split_not_nil Js.LF s) as H.
  destruct (Js.split Js.LF s); [congruence|]. simpl List.length. lia.
Qed.

(** Every line feed opens one more line. *)
Lemma lines_cons (c : ascii) (s : string) :
  lines (String c s) = if Ascii.eqb c Js.LF then lines s + 1 else lines s.
Proof.
  unfold lines. simpl. destruct (Ascii.eqb c Js.LF).
  - simpl List.length. lia.
  - pose proof (split_not_nil Js.LF s) as H.
    destruct (Js.split Js.LF s); [congruence|]. reflexivity.
Qed.

(** C9, as the code has it: for an Edit activity whose two text blocks are
    not both empty, additions is [max(0, lines(new) - lines(old) + 1)] and
    deletions is [max(0, lines(old) - lines(new) + 1)], where [lines] counts
    the segments between line feeds and a block that is absent or not a
    string counts as empty; when both blocks are empty there is no estimate,
    and no other tool has one. *)
Theorem computeDiffStats_line_delta_plus_one (input : gmap string unknown) :
  (string_field input "old_string" <> EmptyString
   \/ string_field input "new_string" <> EmptyString ->
   computeDiffStats "Edit" input =
     Some {| additions :=
               Z.max 0 (lines (string_field input "new_string")
                        - lines (string_field input "old_string") + 1);
             deletions :=
               Z.max 0 (lines (string_field input "old_string")
                        - lines (string_field input "new_string") + 1) |})
  /\ (string_field input "old_string" = EmptyString ->
      string_field input "new_string" = EmptyString ->
      computeDiffStats "Edit" input = None)
  /\ (forall toolName, toolName <> "Edit"%string ->
        computeDiffStats toolName input = None).
Proof.
  split; [|split].
  - intros H. unfold computeDiffStats. simpl String.eqb. cbv zeta.
    destruct (string_field input "old_string"),
             (string_field input "new_string"); simpl; try reflexivity.
    destruct H; congruence.
  - intros Ho Hn. unfold computeDiffStats. simpl String.eqb. cbv zeta.
    rewrite Ho, Hn. reflexivity.
  - intros toolName H. unfold computeDiffStats.
    destruct (String.eqb_spec toolName "Edit"); [contradiction|reflexivity].
Qed.

Lemma computeDiffStats_line_delta_plus_one_witness :
  computeDiffStats "Edit" (edit_input "a" "b") =
    Some {| additions := Z.max 0 (lines "b" - lines "a" + 1);
            deletions := Z.max 0 (lines "a" - lines "b" + 1) |}.
Proof.
  apply (proj1 (computeDiffStats_line_delta_plus_one (edit_input "a" "b"))).
  left. discriminate.
Defined.

(** C9 as stated fails on a one-line replacement: both counts are 1 where the
    clamped line-count delta is 0. *)
Lemma computeDiffStats_one_line_replacement :
  computeDiffStats "Edit" (edit_input "a" "b")
    = Some {| additions := 1; deletions := 1 |}
  /\ Z.max 0 (lines "b" - lines "a") = 0
  /\ Z.max 0 (lines "a" - lines "b") = 0
  /\ computeDiffStats "Edit" (edit_input "a" "b")
     <> Some {| additions := Z.max 0 (lines "b" - lines "a");
                deletions := Z.max 0 (lines "a" - lines "b") |}.
Proof. repeat split; try reflexivity. vm_compute. discriminate. Qed.

End ToolActivityItemFacts.

Section DerivedStatusFacts.

Import ToolActivityItem.

Variable getActivityStatus : ToolActivity -> ActivityStatus.

Lemma terminal_test (s : ActivityStatus) :
  bool_decide (s = completed) || bool_decide (s = error) = true <-> terminal s.
Proof.
  unfold terminal. rewrite orb_true_iff, !bool_decide_eq_true. reflexivity.
Qed.

Lemma children_test (l : list ToolActivity) :
  negb (Nat.eqb (List.length l) 0) && forallb done l = true <-> all_done l.
Proof.
  unfold all_done. rewrite andb_true_iff, forallb_forall.
  destruct l; simpl; intuition congruence.
Qed.

Lemma terminal_test_false (s : ActivityStatus) :
  ~ terminal s ->
  bool_decide (s = completed) || bool_decide (s = error) = false.
Proof.
  intros H. apply not_true_is_false. rewrite terminal_test. exact H.
Qed.

Lemma children_test_false (l : list ToolActivity) :
  ~ all_done l ->
  negb (Nat.eqb (List.length l) 0) && forallb done l = false.
Proof.
  intros H. apply not_true_is_false. rewrite children_test. exact H.
Qed.

Lemma no_error_test (l : list ToolActivity) :
  (forall c, In c l -> isError c = false) -> existsb isError l = false.
Proof.
  intros H. apply not_true_is_false. intros E.
  apply existsb_exists in E. destruct E as [c [Hin Hc]].
  rewrite (H c Hin) in Hc. discriminate.
Qed.

(** C1, as the code has it: a terminal status of the parent is the status of
    the group; otherwise, when there is a child and every child is done, the
    group is [error] if some child has [isError], and [completed] only if the
    parent itself is done; in every other case the group has the parent's own
    status. *)
Theorem derivedStatus_rules (group : ActivityGroup) :
  (terminal (getActivityStatus (parent group)) ->
   derivedStatus getActivityStatus group = getActivityStatus (parent group))
  /\ (~ terminal (getActivityStatus (parent group)) ->
      all_done (children group) ->
      (exists c, In c (children group) /\ isError c = true) ->
      derivedStatus getActivityStatus group = error)
  /\ (~ terminal (getActivityStatus (parent group)) ->
      all_done (children group) ->
      (forall c, In c (children group) -> isError c = false) ->
      done (parent group) = true ->
      derivedStatus getActivityStatus group = completed)
  /\ (~ terminal (getActivityStatus (parent group)) ->
      all_done (children group) ->
      (forall c, In c (children group) -> isError c = false) ->
      done (parent group) = false ->
      derivedStatus getActivityStatus group = getActivityStatus (parent group))
  /\ (~ terminal (getActivityStatus (parent group)) ->
      ~ all_done (children group) ->
      derivedStatus getActivityStatus group = getActivityStatus (parent group)).
Proof.
  unfold derivedStatus. cbv zeta.
  split; [|split; [|split; [|split]]].
  - intros Ht. apply terminal_test in Ht. rewrite Ht. reflexivity.
  - intros Hnt Hall [c [Hin Hc]].
    rewrite (terminal_test_false _ Hnt).
    apply children_test in Hall. rewrite Hall.
    assert (E : existsb isError (children group) = true)
      by (apply existsb_exists; eauto).
    rewrite E. reflexivity.
  - intros Hnt Hall Hclean Hdone.
    rewrite (terminal_test_false _ Hnt).
    apply children_test in Hall. rewrite Hall.
    rewrite (no_error_test _ Hclean), Hdone. reflexivity.
  - intros Hnt Hall Hclean Hdone.
    rewrite (terminal_test_false _ Hnt).
    apply children_test in Hall. rewrite Hall.
    rewrite (no_error_test _ Hclean), Hdone. reflexivity.
  - intros Hnt Hnd.
    rewrite (terminal_test_false _ Hnt), (children_test_false _ Hnd).
    reflexivity.
Qed.

End DerivedStatusFacts.

Section DerivedStatusExamples.

Import ToolActivityItem.

(** C1 as stated fails where the parent is running: with two children, both
    done and without error, the group stays [running]. *)
Lemma derivedStatus_running_parent_clean_children :
  getActivityStatus_spec running_task = running
  /\ forallb done two_clean_children = true
  /\ existsb isError two_clean_children = false
  /\ derivedStatus getActivityStatus_spec
       (mkActivityGroup running_task two_clean_children) = running
  /\ derivedStatus getActivityStatus_spec
       (mkActivityGroup running_task two_clean_children) <> completed.
Proof. repeat split; try reflexivity. vm_compute. discriminate. Qed.

Lemma derivedStatus_rules_witness :
  derivedStatus getActivityStatus_spec
    (mkActivityGroup running_task one_failed_child) = error.
Proof.
  apply (proj1 (proj2 (derivedStatus_rules getActivityStatus_spec
                         (mkActivityGroup running_task one_failed_child)))).
  - intros [H|H]; vm_compute in H; discriminate.
  - split; [discriminate|].
    intros c [<-|[<-|[]]]; reflexivity.
  - exists (child "c" "Read" true true). split; [right; left|]; reflexivity.
Defined.

End DerivedStatusExamples.

(** ** The context usage badge *)

Section ContextUsageBadgeFacts.

Import ContextUsageBadge.
Local Open Scope float_scope.

Lemma SFeqb_finite_refl (s : bool) (m : positive) (e : Z) :
  SFeqb (S754_finite s m e) (S754_finite s m e) = true.
Proof.
  unfold SFeqb, SFcompare. rewrite Z.compare_refl, Pos.compare_cont_refl.
  destruct s; reflexivity.
Qed.

(** [!x || x <= 0] is the negation of [0 < x], for every binary64 value. *)
Lemma no_data_test (x : float) :
  negb (Js.truthy_number x) || (x <=? 0) = negb (0 <? x).
Proof.
  unfold Js.truthy_number, PrimFloat.is_nan.
  rewrite !eqb_spec, leb_spec, ltb_spec.
  change (Prim2SF 0) with (S754_zero false).
  destruct (Prim2SF x) as [s|s| |s m e]; try destruct s; try reflexivity.
  all: rewrite SFeqb_finite_refl; reflexivity.
Qed.

(** A window that is [0] or [NaN] has a threshold that is [0] or [NaN]. *)
Lemma threshold_truthy_window (window : float) :
  Js.truthy_number (compactThreshold_of window) = true ->
  Js.truthy_number window = true.
Proof.
  unfold Js.truthy_number at 2. unfold PrimFloat.is_nan.
  rewrite (eqb_spec window 0), (eqb_spec window window).
  change (Prim2SF 0) with (S754_zero false).
  destruct (Prim2SF window) as [s|s| |s m e] eqn:E.
  - intros H. exfalso. revert H.
    unfold compactThreshold_of, Js.Math_floor.
    rewrite mul_spec, E.
    assert (Z0 : SF64mul (S754_zero s) (Prim2SF COMPACT_THRESHOLD_RATIO)
                 = S754_zero s) by (destruct s; reflexivity).
    rewrite Z0. unfold Js.truthy_number.
    rewrite eqb_spec, mul_spec, E, Z0. destruct s; discriminate.
  - intros _. destruct s; reflexivity.
  - intros H. exfalso. revert H.
    unfold compactThreshold_of, Js.Math_floor.
    rewrite mul_spec, E.
    assert (Z0 : SF64mul S754_nan (Prim2SF COMPACT_THRESHOLD_RATIO)
                 = S754_nan) by reflexivity.
    rewrite Z0. unfold Js.truthy_number, PrimFloat.is_nan.
    rewrite !eqb_spec, !mul_spec, E, Z0. discriminate.
  - intros _. rewrite SFeqb_finite_refl. destruct s; reflexivity.
Qed.



End ContextUsageBadgeFacts.

(** ** The agent session manager *)

Section JsListFacts.

Context {A : Type}.

Lemma findIndex_Some (p : A -> bool) (l : list A) (k : nat) :
  Js.findIndex p l = Some k ->
  exists x, l !! k = Some x /\ p x = true
            /\ forall j y, (j < k)%nat -> l !! j = Some y -> p y = false.
Proof.
  revert k. induction l as [|a l IH]; intros k; simpl; [discriminate|].
  destruct (p a) eqn:Ha.
  - intros [= <-]. exists a. repeat split; auto. intros j y Hj. lia.
  - destruct (Js.findIndex p l) as [k'|]; simpl; [|discriminate].
    intros [= <-]. destruct (IH k' eq_refl) as [x [Hx [Hp Hlt]]].
    exists x. repeat split; auto.
    intros [|j] y Hj; simpl.
    + intros [= <-]. exact Ha.
    + intros Hy. apply (Hlt j y); [lia|exact Hy].
Qed.

Lemma findIndex_None (p : A -> bool) (l : list A) :
  Js.findIndex p l = None <-> forall x, In x l -> p x = false.
Proof.
  induction l as [|a l IH]; simpl.
  - split; [intros _ x []|reflexivity].
  - destruct (p a) eqn:Ha.
    + split; [discriminate|]. intros H. specialize (H a (or_introl eq_refl)).
      congruence.
    + destruct (Js.findIndex p l); simpl.
      * split; [discriminate|]. intros H.
        assert (E : Some n = None); [|discriminate].
        apply IH. intros x Hx. apply H. right. exact Hx.
      * split; [|reflexivity]. intros _ x [<-|Hx]; [exact Ha|].
        apply IH; [reflexivity|exact Hx].
Qed.

Lemma StronglySorted_weaken (R S : A -> A -> Prop) (l : list A) :
  (forall a b, R a b -> S a b) -> StronglySorted R l -> StronglySorted S l.
Proof.
  intros H Hs. induction Hs as [|a l Hs IH Hall]; constructor; [exact IH|].
  eapply Forall_impl; [exact Hall|]. intros b. apply H.
Qed.

Variable cmp : A -> A -> Z.

Lemma sort_insert_perm (x : A) (l : list A) :
  Permutation (Js.sort_insert cmp x l) (x :: l).
Proof.
  induction l as [|y l IH]; simpl; [reflexivity|].
  destruct (cmp x y <=? 0); [reflexivity|].
  rewrite IH. apply perm_swap.
Qed.

Lemma sort_perm (l : list A) : Permutation (Js.sort cmp l) l.
Proof.
  induction l as [|x l IH]; simpl; [reflexivity|].
  rewrite sort_insert_perm. apply perm_skip. exact IH.
Qed.

(** The comparator orders any two elements one way or the other, and
    transitively: what [(a, b) => b.updatedAt - a.updatedAt] does. *)
Hypothesis cmp_total : forall x y, cmp x y <= 0 \/ cmp y x <= 0.
Hypothesis cmp_trans : forall x y z, cmp x y <= 0 -> cmp y z <= 0 -> cmp x z <= 0.

Lemma sort_insert_sorted (x : A) (l : list A) :
  StronglySorted (fun a b => cmp a b <= 0) l ->
  StronglySorted (fun a b => cmp a b <= 0) (Js.sort_insert cmp x l).
Proof.
  induction l as [|y l IH]; simpl; intros Hs.
  - constructor; [constructor|constructor].
  - destruct (Z.leb_spec (cmp x y) 0) as [Hle|Hgt].
    + constructor; [exact Hs|]. constructor; [exact Hle|].
      apply StronglySorted_inv in Hs. destruct Hs as [_ Hall].
      eapply Forall_impl; [exact Hall|]. intros z Hz. simpl in Hz.
      eapply cmp_trans; eauto.
    + apply StronglySorted_inv in Hs. destruct Hs as [Hs Hall].
      constructor; [apply IH; exact Hs|].
      assert (Hyx : cmp y x <= 0) by (destruct (cmp_total x y); [lia|assumption]).
      apply Forall_forall. intros z Hz.
      rewrite sort_insert_perm in Hz.
      apply elem_of_cons in Hz as [->|Hz]; [exact Hyx|].
      rewrite Forall_forall in Hall. apply Hall. exact Hz.
Qed.

Lemma sort_sorted (l : list A) :
  StronglySorted (fun a b => cmp a b <= 0) (Js.sort cmp l).
Proof.
  induction l as [|x l IH]; simpl; [constructor|].
  apply sort_insert_sorted. exact IH.
Qed.

End JsListFacts.

Section ExampleHostFacts.

Import AgentSessionManager ExampleHost.

Lemma of_bits_bits (p : positive) : of_bits (bits p) = Some p.
Proof. induction p as [p IH|p IH|]; simpl; rewrite ?IH; reflexivity. Qed.

Lemma parse_stringify {A : Type} `{Countable A} (a : A) :
  parse (stringify a) = Some a.
Proof.
  unfold parse, stringify. simpl. rewrite of_bits_bits. apply decode_encode.
Qed.

Lemma bits_single_line (p : positive) : Js.split Js.LF (bits p) = [bits p].
Proof. induction p as [p IH|p IH|]; simpl; rewrite ?IH; reflexivity. Qed.

Lemma stringify_single_line {A : Type} `{Countable A} (a : A) :
  Js.split Js.LF (stringify a) = [stringify a].
Proof. unfold stringify. simpl. rewrite bits_single_line. reflexivity. Qed.

Lemma stringify_not_blank {A : Type} `{Countable A} (a : A) :
  Js.trim_truthy (stringify a) = true.
Proof. reflexivity. Qed.

End ExampleHostFacts.

Section SessionIndexFacts.

Import AgentSessionManager.
Context {host : Host}.

(** [readIndex] always returns, and never touches the file system. *)
Lemma readIndex_returns (fs : FS) :
  exists index, readIndex fs = (Return index, fs).
Proof.
  unfold readIndex, bind, try_catch, existsSync, readFileSync.
  destruct (bool_decide (is_Some (files fs !! getAgentSessionsIndexPath)));
    simpl; [|eexists; reflexivity].
  destruct (bool_decide (getAgentSessionsIndexPath ∈ faulty fs));
    [eexists; reflexivity|].
  destruct (files fs !! getAgentSessionsIndexPath) as [raw|];
    [|eexists; reflexivity].
  destruct (JSON_parse_index raw); eexists; reflexivity.
Qed.

Lemma readIndex_absent (fs : FS) :
  files fs !! getAgentSessionsIndexPath = None ->
  readIndex fs = (Return emptyIndex, fs).
Proof.
  intros H. unfold readIndex, bind, existsSync. rewrite H. reflexivity.
Qed.

Lemma readIndex_unreadable (fs : FS) :
  getAgentSessionsIndexPath ∈ faulty fs ->
  readIndex fs = (Return emptyIndex, fs).
Proof.
  intros H. unfold readIndex, bind, try_catch, existsSync, readFileSync.
  destruct (bool_decide (is_Some (files fs !! getAgentSessionsIndexPath)));
    simpl; [|reflexivity].
  rewrite bool_decide_eq_true_2 by exact H. reflexivity.
Qed.

Lemma readIndex_unparseable (fs : FS) (raw : string) :
  files fs !! getAgentSessionsIndexPath = Some raw ->
  JSON_parse_index raw = None ->
  readIndex fs = (Return emptyIndex, fs).
Proof.
  intros Hf Hp. unfold readIndex, bind, try_catch, existsSync, readFileSync.
  rewrite Hf. simpl.
  destruct (bool_decide (getAgentSessionsIndexPath ∈ faulty fs)); [reflexivity|].
  rewrite Hf. simpl. rewrite Hp. reflexivity.
Qed.

Lemma readIndex_parsed (fs : FS) (raw : string) (index : AgentSessionsIndex) :
  files fs !! getAgentSessionsIndexPath = Some raw ->
  getAgentSessionsIndexPath ∉ faulty fs ->
  JSON_parse_index raw = Some index ->
  readIndex fs = (Return index, fs).
Proof.
  intros Hf Hok Hp. unfold readIndex, bind, try_catch, existsSync, readFileSync.
  rewrite Hf. simpl. rewrite bool_decide_eq_false_2 by exact Hok.
  rewrite Hf. simpl. rewrite Hp. reflexivity.
Qed.

Lemma writeIndex_ok (fs : FS) (index : AgentSessionsIndex) :
  getAgentSessionsIndexPath ∉ faulty fs ->
  writeIndex index fs =
    (Return tt,
     {| files := <[getAgentSessionsIndexPath := JSON_stringify_index index]> (files fs);
        faulty := faulty fs |}).
Proof.
  intros Hok. unfold writeIndex, try_catch, writeFileSync.
  rewrite bool_decide_eq_false_2 by exact Hok. reflexivity.
Qed.

Lemma writeIndex_fails (fs : FS) (index : AgentSessionsIndex) :
  getAgentSessionsIndexPath ∈ faulty fs ->
  writeIndex index fs = (Throw "写入 Agent 会话索引失败", fs).
Proof.
  intros Hbad. unfold writeIndex, try_catch, writeFileSync.
  rewrite bool_decide_eq_true_2 by exact Hbad. reflexivity.
Qed.


End SessionIndexFacts.

Section CreateSessionFacts.

Import AgentSessionManager.
Context {host : Host}.

Lemma bind_Return {A B : Type} (c : IO A) (k : A -> IO B) (fs fs' : FS) (b : B) :
  bind c k fs = (Return b, fs') ->
  exists a fs1, c fs = (Return a, fs1) /\ k a fs1 = (Return b, fs').
Proof.
  unfold bind. destruct (c fs) as [[a|e] fs1]; [eauto|discriminate].
Qed.

Lemma createAgentSession_meta (uuid : string) (now : Z)
    (title_arg channelId_arg workspaceId_arg : option string)
    (fs fs' : FS) (meta : AgentSessionMeta) :
  createAgentSession uuid now title_arg channelId_arg workspaceId_arg fs
    = (Return meta, fs') ->
  meta = {| id := uuid;
            title := Js.or_default title_arg "新 Agent 会话";
            channelId := channelId_arg;
            workspaceId := workspaceId_arg;
            sdkSessionId := None;
            createdAt := now;
            updatedAt := now |}.
Proof.
  unfold createAgentSession. intros H.
  apply bind_Return in H as (index & fs1 & _ & H).
  apply bind_Return in H as (u1 & fs2 & _ & H).
  apply bind_Return in H as (u2 & fs3 & _ & H).
  apply bind_Return in H as (u3 & fs4 & _ & H).
  injection H as <- _. reflexivity.
Qed.

Lemma createAgentSession_returns (uuid : string) (now : Z)
    (title_arg channelId_arg workspaceId_arg : option string) (fs : FS) :
  getAgentSessionsIndexPath ∉ faulty fs ->
  helpers_return ->
  exists meta fs',
    createAgentSession uuid now title_arg channelId_arg workspaceId_arg fs
      = (Return meta, fs').
Proof.
  intros Hok (Hdir & Hws & Hpath).
  destruct (readIndex_returns fs) as [index Hread].
  unfold createAgentSession, bind. rewrite Hread.
  rewrite (writeIndex_ok fs _ Hok).
  match goal with |- context [getAgentSessionsDir ?f] =>
    destruct (Hdir f) as (d & fs2 & ->) end.
  destruct workspaceId_arg as [w|]; [|eexists _, _; reflexivity].
  destruct (Js.truthy_string w); [|eexists _, _; reflexivity].
  destruct (Hws w fs2) as ([ws|] & fs3 & ->).
  - destruct (Hpath (slug ws) uuid fs3) as (p & fs4 & E).
    simpl id. rewrite E. eexists _, _; reflexivity.
  - eexists _, _; reflexivity.
Qed.


End CreateSessionFacts.

Section TranscriptFacts.

Import AgentSessionManager.
Context {host : Host}.

Lemma mapM_parse_all (lines : list string) (ms : list AgentMessage) (fs : FS) :
  Forall2 (fun line m => JSON_parse_message line = Some m) lines ms ->
  mapM parse_line lines fs = (Return ms, fs).
Proof.
  intros H. induction H as [|line m lines ms Hline _ IH]; [reflexivity|].
  simpl. unfold bind, parse_line at 1. rewrite Hline. simpl. rewrite IH.
  reflexivity.
Qed.

Lemma mapM_parse_fail (lines : list string) (line : string) (fs : FS) :
  In line lines -> JSON_parse_message line = None ->
  mapM parse_line lines fs = (Throw "SyntaxError", fs).
Proof.
  intros Hin Hnone. induction lines as [|l lines IH]; [destruct Hin|].
  simpl. unfold bind, parse_line at 1.
  destruct (JSON_parse_message l) as [m|] eqn:El; simpl.
  - destruct Hin as [->|Hin]; [congruence|]. rewrite (IH Hin). reflexivity.
  - reflexivity.
Qed.

(** Either every line parses, or some line does not. *)
Lemma parse_lines_cases (lines : list string) :
  (exists ms, Forall2 (fun line m => JSON_parse_message line = Some m) lines ms)
  \/ (exists line, In line lines /\ JSON_parse_message line = None).
Proof.
  induction lines as [|l lines IH].
  - left. exists []. constructor.
  - destruct (JSON_parse_message l) as [m|] eqn:El.
    + destruct IH as [[ms Hms]|[line [Hin Hnone]]].
      * left. exists (m :: ms). constructor; assumption.
      * right. exists line. split; [right|]; assumption.
    + right. exists l. split; [left; reflexivity|assumption].
Qed.

Lemma getAgentSessionMessages_absent (sid : string) (fs : FS) :
  files fs !! getAgentSessionMessagesPath sid = None ->
  getAgentSessionMessages sid fs = (Return [], fs).
Proof.
  intros H. unfold getAgentSessionMessages, bind, existsSync. rewrite H.
  reflexivity.
Qed.

Lemma getAgentSessionMessages_unreadable (sid : string) (fs : FS) :
  getAgentSessionMessagesPath sid ∈ faulty fs ->
  getAgentSessionMessages sid fs = (Return [], fs).
Proof.
  intros H. unfold getAgentSessionMessages, bind, try_catch, existsSync,
    readFileSync.
  destruct (bool_decide (is_Some (files fs !! getAgentSessionMessagesPath sid)));
    simpl; [|reflexivity].
  rewrite bool_decide_eq_true_2 by exact H. reflexivity.
Qed.

Lemma getAgentSessionMessages_read (sid raw : string) (fs : FS) :
  files fs !! getAgentSessionMessagesPath sid = Some raw ->
  getAgentSessionMessagesPath sid ∉ faulty fs ->
  getAgentSessionMessages sid fs =
    try_catch (mapM parse_line (parsed_lines raw)) (fun _ => ret []) fs.
Proof.
  intros Hf Hok. unfold getAgentSessionMessages, bind, try_catch, existsSync,
    readFileSync.
  rewrite Hf. simpl. rewrite bool_decide_eq_false_2 by exact Hok.
  rewrite Hf. reflexivity.
Qed.

Lemma getAgentSessionMessages_bad_line (sid raw line : string) (fs : FS) :
  files fs !! getAgentSessionMessagesPath sid = Some raw ->
  In line (parsed_lines raw) ->
  JSON_parse_message line = None ->
  getAgentSessionMessages sid fs = (Return [], fs).
Proof.
  intros Hf Hin Hnone.
  destruct (decide (getAgentSessionMessagesPath sid ∈ faulty fs)) as [Hbad|Hok].
  - apply getAgentSessionMessages_unreadable. exact Hbad.
  - rewrite (getAgentSessionMessages_read sid raw fs Hf Hok).
    unfold try_catch. rewrite (mapM_parse_fail _ line fs Hin Hnone).
    reflexivity.
Qed.

Lemma getAgentSessionMessages_good (sid raw : string) (fs : FS)
    (ms : list AgentMessage) :
  files fs !! getAgentSessionMessagesPath sid = Some raw ->
  getAgentSessionMessagesPath sid ∉ faulty fs ->
  Forall2 (fun line m => JSON_parse_message line = Some m) (parsed_lines raw) ms ->
  getAgentSessionMessages sid fs = (Return ms, fs).
Proof.
  intros Hf Hok Hall.
  rewrite (getAgentSessionMessages_read sid raw fs Hf Hok).
  unfold try_catch. rewrite (mapM_parse_all _ ms fs Hall). reflexivity.
Qed.

(** C2: [getAgentSessionMessages] always returns (it never throws and leaves
    the file system as it is); it returns the empty sequence when the
    transcript is absent, and when any line that is parsed (any line that
    is not blank) fails to parse, whatever the other lines hold. *)
Theorem getAgentSessionMessages_all_or_nothing (sid : string) (fs : FS) :
  (exists ms, getAgentSessionMessages sid fs = (Return ms, fs))
  /\ (files fs !! getAgentSessionMessagesPath sid = None ->
      getAgentSessionMessages sid fs = (Return [], fs))
  /\ (forall raw line,
        files fs !! getAgentSessionMessagesPath sid = Some raw ->
        In line (Js.split Js.LF raw) ->
        Js.trim_truthy line = true ->
        JSON_parse_message line = None ->
        getAgentSessionMessages sid fs = (Return [], fs)).
Proof.
  split; [|split].
  - destruct (files fs !! getAgentSessionMessagesPath sid) as [raw|] eqn:Hf.
    + destruct (decide (getAgentSessionMessagesPath sid ∈ faulty fs))
        as [Hbad|Hok].
      * exists []. apply getAgentSessionMessages_unreadable. exact Hbad.
      * destruct (parse_lines_cases (parsed_lines raw))
          as [[ms Hms]|[line [Hin Hnone]]].
        -- exists ms. eapply getAgentSessionMessages_good; eassumption.
        -- exists []. eapply getAgentSessionMessages_bad_line; eassumption.
    + exists []. apply getAgentSessionMessages_absent. exact Hf.
  - apply getAgentSessionMessages_absent.
  - intros raw line Hf Hin Hne Hnone.
    apply (getAgentSessionMessages_bad_line sid raw line fs Hf); [|exact Hnone].
    unfold parsed_lines. apply filter_In. split; assumption.
Qed.

End TranscriptFacts.

Section RoundTripFacts.

Import AgentSessionManager.
Context {host : Host}.

Lemma append_nil (b : string) : String.append EmptyString b = b.
Proof. reflexivity. Qed.

Lemma append_cons (c : ascii) (a b : string) :
  String.append (String c a) b = String c (String.append a b).
Proof. reflexivity. Qed.

Lemma append_assoc (a b c : string) :
  String.append (String.append a b) c = String.append a (String.append b c).
Proof.
  induction a as [|x a IH]; [reflexivity|].
  rewrite !append_cons, IH. reflexivity.
Qed.

Lemma single_line_cons (c : ascii) (s : string) :
  Js.single_line (String c s) -> Ascii.eqb c Js.LF = false /\ Js.single_line s.
Proof.
  unfold Js.single_line. simpl. destruct (Ascii.eqb c Js.LF).
  - intros H. injection H as H _. discriminate.
  - destruct (Js.split Js.LF s) as [|w ws] eqn:E.
    + exfalso. exact (split_not_nil _ _ E).
    + intros H. injection H as -> ->. split; reflexivity.
Qed.

Lemma split_line (s rest : string) :
  Js.single_line s ->
  Js.split Js.LF (String.append s (String Js.LF rest)) = s :: Js.split Js.LF rest.
Proof.
  induction s as [|c s IH]; intros H.
  - reflexivity.
  - apply single_line_cons in H as [Hc Hs].
    rewrite append_cons. simpl. rewrite Hc, (IH Hs). reflexivity.
Qed.

Hypothesis parse_stringify :
  forall m, JSON_parse_message (JSON_stringify_message m) = Some m.
Hypothesis stringify_single_line :
  forall m, Js.single_line (JSON_stringify_message m).
Hypothesis stringify_not_blank :
  forall m, Js.trim_truthy (JSON_stringify_message m) = true.

Lemma parsed_lines_jsonl (ms : list AgentMessage) :
  parsed_lines (jsonl ms) = List.map JSON_stringify_message ms.
Proof.
  unfold parsed_lines. induction ms as [|m ms IH]; [reflexivity|].
  simpl jsonl. rewrite split_line by apply stringify_single_line.
  simpl. rewrite stringify_not_blank, IH. reflexivity.
Qed.

Lemma jsonl_snoc (ms : list AgentMessage) (m : AgentMessage) :
  jsonl (ms ++ [m])
  = String.append (jsonl ms)
      (String.append (JSON_stringify_message m) (String Js.LF EmptyString)).
Proof.
  induction ms as [|x ms IH]; simpl.
  - rewrite append_nil. reflexivity.
  - rewrite IH, !append_assoc, append_cons. reflexivity.
Qed.

Lemma parse_map_stringify (ms : list AgentMessage) :
  Forall2 (fun line m => JSON_parse_message line = Some m)
          (List.map JSON_stringify_message ms) ms.
Proof.
  induction ms as [|m ms IH]; simpl; constructor;
    [apply parse_stringify|exact IH].
Qed.

Lemma read_transcript (sid : string) (ms : list AgentMessage) (fs : FS) :
  transcript_is sid ms fs ->
  getAgentSessionMessages sid fs = (Return ms, fs).
Proof.
  intros [Hok [Hf|[Hf ->]]].
  - apply (getAgentSessionMessages_good sid (jsonl ms) fs ms Hf Hok).
    rewrite parsed_lines_jsonl. apply parse_map_stringify.
  - apply getAgentSessionMessages_absent. exact Hf.
Qed.

Lemma appendAgentMessage_transcript (sid : string) (ms : list AgentMessage)
    (m : AgentMessage) (fs : FS) :
  transcript_is sid ms fs ->
  exists fs', appendAgentMessage sid m fs = (Return tt, fs')
              /\ transcript_is sid (ms ++ [m]) fs'.
Proof.
  intros [Hok Hf]. unfold appendAgentMessage, try_catch, appendFileSync.
  rewrite bool_decide_eq_false_2 by exact Hok.
  eexists. split; [reflexivity|]. split; [exact Hok|]. left. simpl.
  rewrite lookup_insert_eq. f_equal. rewrite jsonl_snoc.
  destruct Hf as [->|[-> ->]]; reflexivity.
Qed.

Lemma appendAll_transcript (sid : string) (ms old : list AgentMessage) (fs : FS) :
  transcript_is sid old fs ->
  exists fs', appendAll sid ms fs = (Return tt, fs')
              /\ transcript_is sid (old ++ ms) fs'.
Proof.
  revert old fs. induction ms as [|m ms IH]; intros old fs H.
  - exists fs. rewrite app_nil_r. split; [reflexivity|exact H].
  - destruct (appendAgentMessage_transcript sid old m fs H) as (fs1 & E1 & H1).
    destruct (IH (old ++ [m]) fs1 H1) as (fs2 & E2 & H2).
    exists fs2. split.
    + simpl. unfold bind. rewrite E1. exact E2.
    + rewrite <- app_assoc in H2. exact H2.
Qed.

(** C6: on a session without a transcript yet, at a path that can be written,
    appending the messages one after the other succeeds, and reading the
    session then returns exactly these messages, in the order of the calls,
    each once; this holds for a serialisation that reads back what it wrote,
    writes one line, and never a blank one. *)
Theorem append_then_get_roundtrip (sid : string) (ms : list AgentMessage)
    (fs : FS) :
  files fs !! getAgentSessionMessagesPath sid = None ->
  getAgentSessionMessagesPath sid ∉ faulty fs ->
  exists fs',
    appendAll sid ms fs = (Return tt, fs')
    /\ getAgentSessionMessages sid fs' = (Return ms, fs').
Proof.
  intros Hf Hok.
  destruct (appendAll_transcript sid ms [] fs) as (fs' & E & H).
  { split; [exact Hok|]. right. split; [exact Hf|reflexivity]. }
  exists fs'. split; [exact E|]. apply read_transcript. exact H.
Qed.

End RoundTripFacts.

Section UpdateMetaFacts.

Import AgentSessionManager.
Context {host : Host}.

Hypothesis index_roundtrip :
  forall index, JSON_parse_index (JSON_stringify_index index) = Some index.

Lemma readIndex_after_write (fs : FS) (index : AgentSessionsIndex) :
  getAgentSessionsIndexPath ∉ faulty fs ->
  readIndex {| files := <[getAgentSessionsIndexPath := JSON_stringify_index index]>
                          (files fs);
               faulty := faulty fs |}
  = (Return index,
     {| files := <[getAgentSessionsIndexPath := JSON_stringify_index index]>
                   (files fs);
        faulty := faulty fs |}).
Proof.
  intros Hok.
  apply (readIndex_parsed _ (JSON_stringify_index index)).
  - simpl. apply lookup_insert_eq.
  - exact Hok.
  - apply index_roundtrip.
Qed.

Lemma updateAgentSessionMeta_unknown (now : Z) (sid : string)
    (updates : MetaUpdates) (fs : FS) (index : AgentSessionsIndex) :
  readIndex fs = (Return index, fs) ->
  (forall s, In s (sessions index) -> id s <> sid) ->
  updateAgentSessionMeta now sid updates fs
  = (Throw (String.append "Agent 会话不存在: " sid), fs).
Proof.
  intros Hread Hunknown. unfold updateAgentSessionMeta, bind. rewrite Hread.
  assert (E : Js.findIndex (fun s => String.eqb (id s) sid) (sessions index)
              = None).
  { apply findIndex_None. intros s Hs. apply String.eqb_neq.
    apply Hunknown. exact Hs. }
  rewrite E. reflexivity.
Qed.

Lemma updateAgentSessionMeta_known (now : Z) (sid : string)
    (updates : MetaUpdates) (fs : FS) (index : AgentSessionsIndex)
    (k : nat) :
  readIndex fs = (Return index, fs) ->
  Js.findIndex (fun s => String.eqb (id s) sid) (sessions index) = Some k ->
  getAgentSessionsIndexPath ∉ faulty fs ->
  exists existing,
    sessions index !! k = Some existing
    /\ id existing = sid
    /\ (forall j earlier, (j < k)%nat -> sessions index !! j = Some earlier ->
          id earlier <> sid)
    /\ updateAgentSessionMeta now sid updates fs
       = (Return (merge_updates existing updates now),
          {| files :=
               <[getAgentSessionsIndexPath :=
                   JSON_stringify_index
                     {| version := version index;
                        sessions := <[k := merge_updates existing updates now]>
                                      (sessions index) |}]> (files fs);
             faulty := faulty fs |}).
Proof.
  intros Hread Hfind Hok.
  destruct (findIndex_Some _ _ _ Hfind) as (existing & Hk & Hid & Hfirst).
  exists existing. split; [exact Hk|]. split; [apply String.eqb_eq; exact Hid|].
  split.
  { intros j earlier Hj He. apply String.eqb_neq. exact (Hfirst j earlier Hj He). }
  unfold updateAgentSessionMeta, bind. rewrite Hread, Hfind, Hk.
  rewrite (writeIndex_ok fs _ Hok). reflexivity.
Qed.

(** C7: with an id that no session of the index has, [updateAgentSessionMeta]
    throws the not-found error and leaves the file system as it is; with an
    id that some session has, and an index that can be written, it returns
    the first such record with the supplied fields among [title],
    [channelId], [sdkSessionId], [workspaceId] replaced and [updatedAt] set
    to the current time, [id] and [createdAt] being kept, and the index read
    afterwards has this record at the same position and every other session
    unchanged. *)
Theorem updateAgentSessionMeta_frame (now : Z) (sid : string)
    (updates : MetaUpdates) (fs : FS) (index : AgentSessionsIndex) :
  readIndex fs = (Return index, fs) ->
  ((forall s, In s (sessions index) -> id s <> sid) ->
   updateAgentSessionMeta now sid updates fs
   = (Throw (String.append "Agent 会话不存在: " sid), fs))
  /\ ((exists s, In s (sessions index) /\ id s = sid) ->
      getAgentSessionsIndexPath ∉ faulty fs ->
      exists k existing updated fs',
        sessions index !! k = Some existing
        /\ id existing = sid
        /\ (forall j earlier, (j < k)%nat -> sessions index !! j = Some earlier ->
              id earlier <> sid)
        /\ updateAgentSessionMeta now sid updates fs = (Return updated, fs')
        /\ id updated = id existing
        /\ createdAt updated = createdAt existing
        /\ updatedAt updated = now
        /\ title updated = default (title existing) (u_title updates)
        /\ channelId updated = default (channelId existing) (u_channelId updates)
        /\ sdkSessionId updated
           = default (sdkSessionId existing) (u_sdkSessionId updates)
        /\ workspaceId updated
           = default (workspaceId existing) (u_workspaceId updates)
        /\ readIndex fs'
           = (Return {| version := version index;
                        sessions := <[k := updated]> (sessions index) |}, fs')
        /\ (<[k := updated]> (sessions index)) !! k = Some updated
        /\ (forall j, j <> k ->
              (<[k := updated]> (sessions index)) !! j = sessions index !! j)
        /\ List.length (<[k := updated]> (sessions index))
           = List.length (sessions index)
        /\ (forall path, path <> getAgentSessionsIndexPath ->
              files fs' !! path = files fs !! path)).
Proof.
  intros Hread. split.
  - apply updateAgentSessionMeta_unknown. exact Hread.
  - intros (s & Hs & Hid) Hok.
    destruct (Js.findIndex (fun s => String.eqb (id s) sid) (sessions index))
      as [k|] eqn:Hfind.
    2:{ exfalso. rewrite findIndex_None in Hfind. specialize (Hfind s Hs).
        apply String.eqb_neq in Hfind. contradiction. }
    destruct (updateAgentSessionMeta_known now sid updates fs index k
                Hread Hfind Hok) as (existing & Hk & Hex & Hfirst & Hrun).
    exists k, existing, (merge_updates existing updates now). eexists.
    split; [exact Hk|]. split; [exact Hex|]. split; [exact Hfirst|].
    split; [exact Hrun|].
    repeat (split; [reflexivity|]).
    split; [apply readIndex_after_write; exact Hok|].
    split.
    { apply list_lookup_insert_eq. apply lookup_lt_Some in Hk. exact Hk. }
    split.
    { intros j Hj. apply list_lookup_insert_ne. congruence. }
    split; [apply length_insert|].
    intros path Hp. simpl. apply lookup_insert_ne. congruence.
Qed.

End UpdateMetaFacts.

(** ** The session manager on the example host *)

Section SessionExamples.

Import AgentSessionManager ExampleHost.

Lemma example_helpers_return : helpers_return.
Proof.
  repeat split; intros; eexists _, _; reflexivity.
Qed.

Lemma two_sessions_index :
  readIndex two_sessions_fs
  = (Return (mkIndex 1 [session_a; session_b]), two_sessions_fs).
Proof.
  apply (readIndex_parsed _ (stringify (mkIndex 1 [session_a; session_b]))).
  - reflexivity.
  - simpl. set_solver.
  - apply parse_stringify.
Qed.


Lemma getAgentSessionMessages_all_or_nothing_witness :
  getAgentSessionMessages "s1" torn_transcript_fs = (Return [], torn_transcript_fs)
  /\ getAgentSessionMessages "s2" torn_transcript_fs = (Return [], torn_transcript_fs).
Proof.
  destruct (getAgentSessionMessages_all_or_nothing "s1" torn_transcript_fs)
    as (_ & _ & Hbad).
  destruct (getAgentSessionMessages_all_or_nothing "s2" torn_transcript_fs)
    as (_ & Habsent & _).
  split.
  - eapply (Hbad _ "#01x"%string).
    + reflexivity.
    + vm_compute. right. left. reflexivity.
    + reflexivity.
    + reflexivity.
  - apply Habsent. reflexivity.
Defined.

Lemma append_then_get_roundtrip_witness :
  exists fs',
    appendAll "s1" ["hi"; "there"; "hi"]%string empty_fs = (Return tt, fs')
    /\ getAgentSessionMessages "s1" fs' = (Return ["hi"; "there"; "hi"]%string, fs').
Proof.
  apply (append_then_get_roundtrip (host := example_host)).
  - intros m. apply parse_stringify.
  - intros m. apply stringify_single_line.
  - intros m. apply stringify_not_blank.
  - reflexivity.
  - simpl. set_solver.
Defined.

Lemma updateAgentSessionMeta_frame_witness :
  updateAgentSessionMeta 99 "zz" (rename_to "renamed") two_sessions_fs
  = (Throw (String.append "Agent 会话不存在: " "zz"), two_sessions_fs)
  /\ exists fs',
       updateAgentSessionMeta 99 "b" (rename_to "renamed") two_sessions_fs
       = (Return (mkMeta "b" "renamed" (Some "ch"%string) None None 20 99), fs')
       /\ readIndex fs'
          = (Return (mkIndex 1 [session_a;
                                mkMeta "b" "renamed" (Some "ch"%string) None None 20 99]),
             fs').
Proof.
  destruct (updateAgentSessionMeta_frame (host := example_host)
              (fun i => parse_stringify i) 99 "zz" (rename_to "renamed")
              two_sessions_fs _ two_sessions_index) as [Hunknown _].
  destruct (updateAgentSessionMeta_frame (host := example_host)
              (fun i => parse_stringify i) 99 "b" (rename_to "renamed")
              two_sessions_fs _ two_sessions_index) as [_ Hknown].
  split.
  - apply Hunknown. intros s [<-|[<-|[]]]; discriminate.
  - destruct Hknown as (k & existing & updated & fs' & Hk & Hid & _ & Hrun & Hi
                        & Hc & Hu & Ht & Hch & Hsdk & Hws & Hread & _).
    + exists session_b. split; [right; left|]; reflexivity.
    + simpl. set_solver.
    + assert (k = 1%nat) as ->.
      { destruct k as [|[|k]]; simpl in Hk; [|reflexivity|].
        - injection Hk as <-. discriminate.
        - rewrite lookup_nil in Hk. discriminate. }
      injection Hk as <-.
      assert (updated = mkMeta "b" "renamed" (Some "ch"%string) None None 20 99)
        as ->.
      { destruct updated; simpl in *; congruence. }
      exists fs'. split; [exact Hrun|exact Hread].
Defined.


End SessionExamples.

(** ** The workspace watcher *)

Section WatcherFrameFacts.

Import WorkspaceWatcher.
Local Open Scope N_scope.

Lemma fire_alive (t : N) (alive : bool) (window : nat) (c : Channel)
    (timer : option N) (d : Delivery) :
  In d (snd (fire t alive window c timer)) ->
  alive = true /\ to_win d = window /\ channel d = c /\ at_time d = t
  /\ exists deadline, timer = Some deadline /\ deadline <= t.
Proof.
  unfold fire. destruct timer as [deadline|]; [|intros []].
  destruct (N.leb_spec deadline t); [|intros []].
  destruct alive; [|intros []].
  intros [<-|[]]. repeat split; eauto.
Qed.

(** A notification is only ever sent to a window that is not destroyed. *)
Lemma tick_all_alive (w : World) (t : N) (l : list Instance) (d : Delivery) :
  In d (snd (tick_all w t l)) -> isDestroyed w (to_win d) = false.
Proof.
  induction l as [|i l IH]; simpl; [intros []|].
  rewrite !in_app_iff. intros [[H|H]|H].
  - apply fire_alive in H as (Ha & -> & _). apply negb_true_iff. exact Ha.
  - apply fire_alive in H as (Ha & -> & _). apply negb_true_iff. exact Ha.
  - apply IH. exact H.
Qed.

Lemma destroyed_step (a : Action) (w : World) (window : nat) :
  window ∈ destroyed w -> window ∈ destroyed (step a w).
Proof.
  destruct a; simpl; try (intros H; exact H).
  - unfold startWorkspaceWatcher. destruct (negb (watchDirExists w)); auto.
  - unfold stopWorkspaceWatcher. destruct (watcher w); auto.
  - set_solver.
Qed.

Lemma filter_none {A : Type} (p : A -> bool) (l : list A) :
  (forall x, In x l -> p x = false) -> List.filter p l = [].
Proof.
  induction l as [|x l IH]; intros H; simpl; [reflexivity|].
  rewrite (H x (or_introl eq_refl)). apply IH. intros y Hy. apply H.
  right. exact Hy.
Qed.

Lemma sent_to_step (a : Action) (w : World) (window : nat) :
  window ∈ destroyed w -> sent_to window (step a w) = sent_to window w.
Proof.
  intros Hd. destruct a; simpl; try reflexivity.
  - unfold startWorkspaceWatcher. destruct (negb (watchDirExists w)); reflexivity.
  - unfold stopWorkspaceWatcher. destruct (watcher w); reflexivity.
  - unfold sent_to. simpl. rewrite List.filter_app.
    rewrite (filter_none _ (snd (tick_all w (now w + 1) (instances w)))).
    + apply app_nil_r.
    + intros d Hin. apply tick_all_alive in Hin.
      apply bool_decide_eq_false_2. intros E. rewrite E in Hin.
      unfold isDestroyed in Hin. apply bool_decide_eq_false_1 in Hin.
      contradiction.
Qed.

(** Nothing is sent to a window once it is destroyed. *)
Lemma sent_to_destroyed (trace : list Action) (w : World) (window : nat) :
  window ∈ destroyed w -> sent_to window (run trace w) = sent_to window w.
Proof.
  revert w. induction trace as [|a trace IH]; intros w Hd; [reflexivity|].
  simpl. rewrite IH by (apply destroyed_step; exact Hd).
  apply sent_to_step. exact Hd.
Qed.

Lemma close_closed (i : Instance) : closed i = true -> close i = i.
Proof. destruct i as [wi ci ct ft]. simpl. intros ->. reflexivity. Qed.

Lemma alter_close_id (k : nat) (l : list Instance) :
  Forall (fun i => closed i = true) l -> alter close k l = l.
Proof.
  intros H. revert k. induction H as [|i l Hi _ IH]; intros k; [reflexivity|].
  destruct k as [|k]; simpl.
  - rewrite (close_closed i Hi). reflexivity.
  - f_equal. apply IH.
Qed.

Lemma deliver_change_closed (w : World) (filename : option string)
    (l : list Instance) :
  Forall (fun i => closed i = true) l ->
  List.map (deliver_change w filename) l = l.
Proof.
  intros H. induction H as [|i l Hi _ IH]; simpl; [reflexivity|].
  unfold deliver_change at 1. rewrite Hi, IH. reflexivity.
Qed.

Lemma tick_all_closed (w : World) (t : N) (l : list Instance) :
  Forall (fun i => closed i = true) l ->
  Forall (fun i => closed i = true) (fst (tick_all w t l)).
Proof.
  intros H. induction H as [|i l Hi _ IH]; simpl; constructor; assumption.
Qed.

(** A raw event changes nothing once every watcher is closed. *)
Lemma change_after_close (w : World) (filename : option string) :
  all_closed w -> step (Change filename) w = w.
Proof.
  unfold all_closed. destruct w as [n e d wt l s]. simpl. intros H.
  rewrite (deliver_change_closed _ filename l H). reflexivity.
Qed.

Lemma all_closed_step (a : Action) (w : World) :
  match a with Start _ => False | _ => True end ->
  all_closed w -> all_closed (step a w).
Proof.
  intros Ha H. destruct a; try contradiction.
  - simpl. unfold stopWorkspaceWatcher. destruct (watcher w) as [k|]; [|exact H].
    unfold all_closed in *. simpl. rewrite (alter_close_id k _ H). exact H.
  - rewrite (change_after_close w filename H). exact H.
  - exact H.
  - unfold all_closed in *. simpl. apply tick_all_closed. exact H.
Qed.

Lemma run_drop_changes (trace : list Action) (w : World) :
  all_closed w -> no_start trace ->
  run trace w = run (drop_changes trace) w.
Proof.
  revert w. induction trace as [|a trace IH]; intros w Hc Hn; [reflexivity|].
  apply Forall_cons in Hn as [Ha Hn].
  destruct a; try contradiction.
  - simpl. apply IH; [apply (all_closed_step Stop); auto|exact Hn].
  - change (run (Change filename :: trace) w)
      with (run trace (step (Change filename) w)).
    rewrite (change_after_close w filename Hc). apply IH; assumption.
  - simpl. apply IH; [apply (all_closed_step (Destroy window)); auto|exact Hn].
  - simpl. apply IH; [apply (all_closed_step Tick); auto|exact Hn].
Qed.

Lemma fire_budget (t : N) (alive : bool) (window : nat) (c : Channel)
    (timer : option N) :
  (List.length (snd (fire t alive window c timer))
   + match fst (fire t alive window c timer) with Some _ => 1 | None => 0 end
   <= match timer with Some _ => 1 | None => 0 end)%nat.
Proof.
  unfold fire. destruct timer as [deadline|]; simpl; [|lia].
  destruct (deadline <=? t); simpl; [|lia]. destruct alive; simpl; lia.
Qed.

Lemma tick_all_budget (w : World) (t : N) (l : list Instance) :
  (List.length (snd (tick_all w t l))
   + list_sum (List.map pending (fst (tick_all w t l)))
   <= list_sum (List.map pending l))%nat.
Proof.
  induction l as [|i l IH]; simpl; [lia|].
  rewrite !length_app. unfold pending at 1 3. simpl.
  pose proof (fire_budget t (negb (isDestroyed w (win i))) (win i)
                CAPABILITIES_CHANGED (capabilitiesTimer i)).
  pose proof (fire_budget t (negb (isDestroyed w (win i))) (win i)
                WORKSPACE_FILES_CHANGED (filesTimer i)).
  lia.
Qed.

Lemma step_budget (a : Action) (w : World) :
  match a with Start _ => False | _ => True end ->
  all_closed w ->
  exists extra,
    sent (step a w) = sent w ++ extra
    /\ (List.length extra + pending_timers (step a w) <= pending_timers w)%nat.
Proof.
  intros Ha H. destruct a; try contradiction.
  - exists []. rewrite app_nil_r. simpl. unfold stopWorkspaceWatcher.
    destruct (watcher w) as [k|]; simpl; [|split; [reflexivity|lia]].
    unfold pending_timers. simpl. rewrite (alter_close_id k _ H).
    split; [reflexivity|lia].
  - exists []. rewrite app_nil_r, (change_after_close w filename H).
    split; [reflexivity|simpl; lia].
  - exists []. rewrite app_nil_r.
    split; [reflexivity|unfold pending_timers; simpl; lia].
  - exists (snd (tick_all w (now w + 1) (instances w))).
    split; [reflexivity|]. apply tick_all_budget.
Qed.

(** After every watcher is closed, at most one notification per timer that
    is still pending is sent, whatever happens next. *)
Lemma run_budget (trace : list Action) (w : World) :
  all_closed w -> no_start trace ->
  exists extra,
    sent (run trace w) = sent w ++ extra
    /\ (List.length extra + pending_timers (run trace w) <= pending_timers w)%nat.
Proof.
  revert w. induction trace as [|a trace IH]; intros w Hc Hn.
  - exists []. rewrite app_nil_r. split; [reflexivity|simpl; lia].
  - apply Forall_cons in Hn as [Ha Hn].
    destruct (step_budget a w Ha Hc) as (e1 & E1 & B1).
    destruct (IH (step a w) (all_closed_step a w Ha Hc) Hn) as (e2 & E2 & B2).
    exists (e1 ++ e2). simpl run. rewrite E2, E1, <- app_assoc.
    split; [reflexivity|]. rewrite length_app. lia.
Qed.

(** [stopWorkspaceWatcher] closes the watcher the module variable refers
    to, and forgets it. *)
Lemma stop_closes (w : World) :
  tracked w ->
  all_closed (stopWorkspaceWatcher w)
  /\ watcher (stopWorkspaceWatcher w) = None
  /\ sent (stopWorkspaceWatcher w) = sent w
  /\ pending_timers (stopWorkspaceWatcher w) = pending_timers w.
Proof.
  intros Ht. unfold stopWorkspaceWatcher, all_closed.
  destruct (watcher w) as [k|] eqn:Hw; simpl.
  - split; [|split; [reflexivity|split; [reflexivity|]]].
    + apply Forall_lookup. intros j i Hj.
      destruct (decide (j = k)) as [->|Hne].
      * rewrite list_lookup_alter_eq in Hj.
        destruct (instances w !! k) as [i0|]; simpl in Hj; [|discriminate].
        injection Hj as <-. reflexivity.
      * rewrite list_lookup_alter_ne in Hj by congruence.
        destruct (closed i) eqn:Hc; [reflexivity|].
        specialize (Ht j i Hj Hc). congruence.
    + unfold pending_timers. simpl. f_equal.
      generalize (instances w) k. clear.
      induction l as [|i l IH]; intros [|k]; simpl; try reflexivity.
      f_equal. apply IH.
  - split; [|auto].
    apply Forall_lookup. intros j i Hj.
    destruct (closed i) eqn:Hc; [reflexivity|].
    specialize (Ht j i Hj Hc). congruence.
Qed.

Lemma closed_deliver_change (w : World) (filename : option string)
    (i : Instance) :
  closed (deliver_change w filename i) = closed i.
Proof.
  unfold deliver_change. destruct (closed i) eqn:E; [exact E|].
  unfold on_change. destruct filename as [f|]; [|exact E].
  destruct (negb (Js.truthy_string f) || isDestroyed w (win i)); [exact E|].
  destruct (isCapabilitiesChange f); exact E.
Qed.

Lemma lookup_deliver_change (w : World) (filename : option string)
    (l : list Instance) (k : nat) (i' : Instance) :
  List.map (deliver_change w filename) l !! k = Some i' ->
  exists i, l !! k = Some i /\ closed i' = closed i.
Proof.
  revert k. induction l as [|i l IH]; intros [|k]; simpl; try discriminate.
  - intros [= <-]. exists i. split; [reflexivity|].
    apply closed_deliver_change.
  - apply IH.
Qed.

Lemma lookup_tick_all (w : World) (t : N) (l : list Instance) (k : nat)
    (i' : Instance) :
  fst (tick_all w t l) !! k = Some i' ->
  exists i, l !! k = Some i /\ closed i' = closed i.
Proof.
  revert k. induction l as [|i l IH]; intros [|k]; simpl; try discriminate.
  - intros [= <-]. exists i. split; reflexivity.
  - apply IH.
Qed.

(** Cycles of start and stop keep the module variable on the one watcher
    that is open. *)
Lemma tracked_step (a : Action) (w : World) :
  match a with Start _ => watcher w = None | _ => True end ->
  tracked w -> tracked (step a w).
Proof.
  intros Ha Ht. destruct a as [window| |filename|window|]; simpl.
  - unfold startWorkspaceWatcher. destruct (negb (watchDirExists w)); [exact Ht|].
    intros k i Hk Hc. simpl in Hk |- *.
    apply lookup_app_Some in Hk as [Hk|[Hlen Hk]].
    + specialize (Ht k i Hk Hc). congruence.
    + f_equal. destruct (k - List.length (instances w))%nat as [|n] eqn:E;
        simpl in Hk; [lia|discriminate].
  - unfold stopWorkspaceWatcher. destruct (watcher w) as [k0|] eqn:Hw; [|exact Ht].
    intros k i Hk Hc. simpl in Hk |- *. exfalso.
    destruct (decide (k = k0)) as [->|Hne].
    + rewrite list_lookup_alter_eq in Hk.
      destruct (instances w !! k0) as [i0|]; simpl in Hk; [|discriminate].
      injection Hk as <-. discriminate.
    + rewrite list_lookup_alter_ne in Hk by congruence.
      specialize (Ht k i Hk Hc). congruence.
  - intros k i Hk Hc. simpl in Hk |- *.
    apply lookup_deliver_change in Hk as (i0 & Hk & E).
    apply (Ht k i0 Hk). congruence.
  - exact Ht.
  - intros k i Hk Hc. simpl in Hk |- *.
    apply lookup_tick_all in Hk as (i0 & Hk & E).
    apply (Ht k i0 Hk). congruence.
Qed.

Lemma tracked_run (trace : list Action) (w : World) :
  tracked w -> in_cycles trace w -> tracked (run trace w).
Proof.
  revert w. induction trace as [|a trace IH]; intros w Ht Hc; [exact Ht|].
  destruct Hc as [Ha Hc]. simpl. apply IH; [|exact Hc].
  apply tracked_step; assumption.
Qed.

Lemma tracked_boot : tracked boot.
Proof. intros k i Hk. simpl in Hk. destruct k; discriminate. Qed.


End WatcherFrameFacts.

Section WatcherExamples.

Import WorkspaceWatcher.
Local Open Scope N_scope.


Lemma tracked_armed : tracked armed.
Proof.
  apply (tracked_run _ boot tracked_boot). simpl. auto.
Qed.

Lemma all_closed_armed_then_stopped : all_closed armed_then_stopped.
Proof. vm_compute. repeat constructor. Qed.


End WatcherExamples.

Section DebounceFacts.

Import WorkspaceWatcher.
Local Open Scope N_scope.

Lemma times_on_app (c : Channel) (l1 l2 : list Delivery) :
  times_on c (l1 ++ l2) = times_on c l1 ++ times_on c l2.
Proof. unfold times_on. rewrite List.filter_app, List.map_app. reflexivity. Qed.

Lemma event_times_ge (c : Channel) (trace : list Action) (clock : N) :
  Forall (fun t => clock <= t) (event_times c clock trace).
Proof.
  revert clock. induction trace as [|a trace IH]; intros clock; [constructor|].
  destruct a as [window| |[f|]|window|]; simpl; try apply IH.
  - destruct (Js.truthy_string f && bool_decide (category f = c)); [|apply IH].
    constructor; [lia|apply IH].
  - eapply Forall_impl; [apply IH|]. intros t Ht. simpl in Ht. lia.
Qed.

Lemma now_step (a : Action) (w : World) : now w <= now (step a w).
Proof.
  destruct a; simpl; try lia.
  - unfold startWorkspaceWatcher. destruct (negb (watchDirExists w)); simpl; lia.
  - unfold stopWorkspaceWatcher. destruct (watcher w); simpl; lia.
Qed.

Lemma now_run (trace : list Action) (w : World) : now w <= now (run trace w).
Proof.
  revert w. induction trace as [|a trace IH]; intros w; simpl; [lia|].
  pose proof (now_step a w). pose proof (IH (step a w)). lia.
Qed.

Lemma debounced_fire (t horizon : N) (later : list N) :
  t + DEBOUNCE_MS <= horizon ->
  Forall (fun x => t + DEBOUNCE_MS <= x) later ->
  debounced (t :: later) horizon = (t + DEBOUNCE_MS) :: debounced later horizon.
Proof.
  intros Hh Hl. simpl.
  destruct later as [|t' later].
  - rewrite (proj2 (N.leb_le _ _) Hh). reflexivity.
  - apply Forall_cons in Hl as [Ht' _].
    rewrite (proj2 (N.leb_le _ _) Ht'). reflexivity.
Qed.

Lemma debounced_skip (t t' horizon : N) (later : list N) :
  t' < t + DEBOUNCE_MS ->
  debounced (t :: t' :: later) horizon = debounced (t' :: later) horizon.
Proof.
  intros H. change (debounced (t :: t' :: later) horizon)
    with (if t + DEBOUNCE_MS <=? t' then
            (t + DEBOUNCE_MS) :: debounced (t' :: later) horizon
          else debounced (t' :: later) horizon).
  rewrite (proj2 (N.leb_gt _ _) H). reflexivity.
Qed.

Lemma debounced_pending (t horizon : N) :
  horizon < t + DEBOUNCE_MS -> debounced [t] horizon = [].
Proof. intros H. simpl. rewrite (proj2 (N.leb_gt _ _) H). reflexivity. Qed.

(** What a raw event does to the timer of a channel. *)
Lemma on_change_timer (c : Channel) (w : World) (i : Instance) (f : string) :
  Js.truthy_string f = true -> isDestroyed w (win i) = false ->
  timer_of c (on_change w (Some f) i)
  = if bool_decide (category f = c) then Some (now w + DEBOUNCE_MS)
    else timer_of c i.
Proof.
  intros Hf Hd. unfold on_change, category. rewrite Hf, Hd. simpl.
  destruct (isCapabilitiesChange f), c; reflexivity.
Qed.

(** What the end of a millisecond does to the timer of a channel, and what
    it sends on that channel. *)
Lemma tick_instance_timer (c : Channel) (w : World) (t : N) (i : Instance) :
  isDestroyed w (win i) = false ->
  timer_of c (fst (tick_instance w t i))
  = match timer_of c i with
    | Some deadline => if deadline <=? t then None else Some deadline
    | None => None
    end
  /\ times_on c (snd (tick_instance w t i))
     = match timer_of c i with
       | Some deadline => if deadline <=? t then [t] else []
       | None => []
       end.
Proof.
  intros Hd. unfold tick_instance, fire. rewrite Hd.
  destruct i as [wi ci [dc|] [df|]], c; simpl;
    repeat match goal with
           | |- context [?a <=? ?b] => destruct (a <=? b); simpl
           end;
    split; reflexivity.
Qed.

Lemma live_step (a : Action) (w : World) (i : Instance) :
  match a with Change _ | Tick => True | _ => False end ->
  live w i ->
  exists i', live (step a w) i' /\ win i' = win i
             /\ instances (step a w)
                = match a with
                  | Change filename => [on_change w filename i]
                  | _ => [fst (tick_instance w (now w + 1) i)]
                  end.
Proof.
  intros Ha (Hi & Hc & Hd). destruct a; try contradiction.
  - exists (on_change w filename i).
    assert (E : instances (step (Change filename) w) = [on_change w filename i]).
    { simpl. rewrite Hi. simpl. unfold deliver_change. rewrite Hc. reflexivity. }
    assert (Hw : win (on_change w filename i) = win i
                 /\ closed (on_change w filename i) = closed i).
    { unfold on_change. destruct filename as [f|]; [|auto].
      destruct (negb (Js.truthy_string f) || isDestroyed w (win i)); [auto|].
      destruct (isCapabilitiesChange f); auto. }
    destruct Hw as [Hw1 Hw2].
    repeat split; auto; [congruence|]. rewrite Hw1. exact Hd.
  - exists (fst (tick_instance w (now w + 1) i)).
    assert (E : instances (step Tick w) = [fst (tick_instance w (now w + 1) i)]).
    { simpl. rewrite Hi. reflexivity. }
    repeat split; auto.
Qed.

Lemma sent_on_change (c : Channel) (w : World) (filename : option string) :
  sent_on c (step (Change filename) w) = sent_on c w
  /\ now (step (Change filename) w) = now w.
Proof. split; reflexivity. Qed.

Lemma sent_on_tick (c : Channel) (w : World) (i : Instance) :
  instances w = [i] ->
  sent_on c (step Tick w)
  = sent_on c w ++ times_on c (snd (tick_instance w (now w + 1) i))
  /\ now (step Tick w) = now w + 1.
Proof.
  intros Hi. split; [|reflexivity].
  unfold sent_on. simpl. rewrite Hi. simpl. rewrite app_nil_r.
  apply times_on_app.
Qed.

(** The notifications of one channel are those of the debounce rule applied
    to the events of that channel alone; [p] is the event, if any, whose
    window is still open when the trace starts. *)
Lemma debounce_channel (c : Channel) (trace : list Action) :
  forall (w : World) (i : Instance) (p : option N),
    raw_only trace -> live w i ->
    timer_of c i = option_map (fun t => t + DEBOUNCE_MS) p ->
    (forall t, p = Some t -> now w < t + DEBOUNCE_MS) ->
    sent_on c (run trace w)
    = sent_on c w
      ++ debounced (option_list p ++ event_times c (now w) trace)
                   (now (run trace w)).
Proof.
  induction trace as [|a trace IH]; intros w i p Hraw Hlive Htimer Hopen.
  - change (run [] w) with w.
    change (event_times c (now w) []) with (@nil N). rewrite app_nil_r.
    destruct p as [t|]; simpl option_list.
    + rewrite debounced_pending by (apply Hopen; reflexivity).
      rewrite app_nil_r. reflexivity.
    + simpl. rewrite app_nil_r. reflexivity.
  - apply Forall_cons in Hraw as [Ha Hraw].
    destruct (live_step a w i Ha Hlive) as (i' & Hlive' & Hwin & Einst).
    assert (Ei' : instances (step a w) = [i']) by apply Hlive'.
    assert (Halive : isDestroyed w (win i) = false).
    { apply bool_decide_eq_false_2. apply Hlive. }
    change (run (a :: trace) w) with (run trace (step a w)).
    destruct a as [window| |filename|window|]; try contradiction.
    + (* a raw event *)
      rewrite Einst in Ei'. injection Ei' as <-.
      destruct (sent_on_change c w filename) as [Es En].
      assert (Hkeep : forall q,
                 timer_of c (on_change w filename i)
                 = option_map (fun t => t + DEBOUNCE_MS) q ->
                 (forall t, q = Some t -> now w < t + DEBOUNCE_MS) ->
                 sent_on c (run trace (step (Change filename) w))
                 = sent_on c w
                   ++ debounced (option_list q ++ event_times c (now w) trace)
                                (now (run trace (step (Change filename) w)))).
      { intros q Hq Hqo.
        rewrite (IH _ _ q Hraw Hlive' Hq); rewrite En; [|exact Hqo].
        rewrite Es. reflexivity. }
      destruct filename as [f|]; [|apply Hkeep; assumption].
      destruct (Js.truthy_string f) eqn:Hf.
      2:{ simpl event_times. rewrite Hf. simpl andb. cbv iota.
          apply Hkeep; [|exact Hopen].
          unfold on_change. rewrite Hf. exact Htimer. }
      pose proof (on_change_timer c w i f Hf Halive) as Hch.
      simpl event_times. rewrite Hf. simpl andb.
      destruct (bool_decide (category f = c)).
      * rewrite (Hkeep (Some (now w))); [| exact Hch | intros t [= <-]; unfold DEBOUNCE_MS; lia].
        f_equal. destruct p as [t|]; [|reflexivity].
        simpl option_list. simpl app.
        rewrite debounced_skip by (apply Hopen; reflexivity). reflexivity.
      * apply Hkeep; [|exact Hopen]. rewrite Hch. exact Htimer.
    + (* the end of a millisecond *)
      rewrite Einst in Ei'. injection Ei' as <-.
      destruct (sent_on_tick c w i (proj1 Hlive)) as [Es En].
      destruct (tick_instance_timer c w (now w + 1) i Halive) as [Ht Hs].
      rewrite Htimer in Ht, Hs.
      simpl event_times.
      destruct p as [t|]; unfold option_map in Ht, Hs; cbv beta iota in Ht, Hs.
      * destruct (N.leb_spec (t + DEBOUNCE_MS) (now w + 1)) as [Hdue|Hnot].
        -- assert (Hnow : now w + 1 = t + DEBOUNCE_MS).
           { specialize (Hopen t eq_refl). lia. }
           rewrite (IH _ _ None Hraw Hlive' Ht) by discriminate.
           rewrite Es, Hs, En, <- app_assoc. f_equal.
           simpl option_list. simpl app.
           rewrite debounced_fire.
           ++ simpl app. f_equal. exact Hnow.
           ++ pose proof (now_run trace (step Tick w)) as Hge.
              rewrite En in Hge. lia.
           ++ eapply Forall_impl; [apply event_times_ge|].
              intros x Hx. simpl in Hx. lia.
        -- rewrite (IH _ _ (Some t) Hraw Hlive' Ht).
           ++ rewrite Es, Hs, En, app_nil_r. reflexivity.
           ++ intros t0 [= <-]. rewrite En. lia.
      * rewrite (IH _ _ None Hraw Hlive' Ht) by discriminate.
        rewrite Es, Hs, En, app_nil_r. reflexivity.
Qed.

Lemma last_cons (a d : N) (l : list N) : List.last (a :: l) d = List.last l a.
Proof.
  revert a d. induction l as [|b l IH]; intros a d; [reflexivity|].
  change (List.last (a :: b :: l) d) with (List.last (b :: l) d).
  rewrite (IH b d), (IH b a). reflexivity.
Qed.

Lemma debounced_burst (t horizon : N) (later : list N) :
  within_window (t :: later) ->
  List.last later t + DEBOUNCE_MS <= horizon ->
  debounced (t :: later) horizon = [List.last later t + DEBOUNCE_MS].
Proof.
  revert t. induction later as [|t' later IH]; intros t Hw Hh.
  - simpl in *. rewrite (proj2 (N.leb_le _ _) Hh). reflexivity.
  - destruct Hw as [Hlt Hw].
    rewrite debounced_skip by exact Hlt.
    rewrite last_cons in *. apply IH; assumption.
Qed.

(** X1 (the debounce rule of C5), for a watcher that is running for a live
    window with no timer pending: on each channel, the notifications sent during a trace
    of raw events are exactly those of the rule applied to the events of that
    category, each 500ms after an event that no event of the same category
    follows within 500ms; events of the other category play no part.  In
    particular a burst of events of one category, each within 500ms of the
    one before, followed by 500ms without such an event, sends exactly one
    notification, 500ms after the last of them. *)
Theorem debounce_per_category (w : World) (i : Instance) (trace : list Action) :
  live w i -> capabilitiesTimer i = None -> filesTimer i = None ->
  raw_only trace ->
  (forall c,
     sent_on c (run trace w)
     = sent_on c w
       ++ debounced (event_times c (now w) trace) (now (run trace w)))
  /\ (forall c t later,
        event_times c (now w) trace = t :: later ->
        within_window (t :: later) ->
        List.last later t + DEBOUNCE_MS <= now (run trace w) ->
        sent_on c (run trace w)
        = sent_on c w ++ [List.last later t + DEBOUNCE_MS]).
Proof.
  intros Hlive Hc Hf Hraw.
  assert (H : forall c,
             sent_on c (run trace w)
             = sent_on c w
               ++ debounced (event_times c (now w) trace) (now (run trace w))).
  { intros c.
    apply (debounce_channel c trace w i None Hraw Hlive);
      [destruct c; assumption|discriminate]. }
  split; [exact H|].
  intros c t later E Hw Hh. rewrite H, E, debounced_burst by assumption.
  reflexivity.
Qed.

End DebounceFacts.

Section DebounceExamples.

Import WorkspaceWatcher.
Local Open Scope N_scope.

Lemma live_started : live started (mkInstance 0 false None None).
Proof. repeat split. vm_compute. set_solver. Qed.

Lemma raw_only_cons_change (f : string) (trace : list Action) :
  raw_only trace -> raw_only (Change (Some f) :: trace).
Proof. intros H. constructor; [exact I|exact H]. Qed.

Lemma raw_only_wait (ms : nat) (trace : list Action) :
  raw_only trace -> raw_only (wait ms ++ trace).
Proof.
  intros H. unfold wait. induction ms as [|ms IH]; [exact H|].
  simpl. constructor; [exact I|exact IH].
Qed.

Lemma raw_only_five_changes (f : string) : raw_only (five_changes f).
Proof.
  unfold five_changes.
  repeat (apply raw_only_cons_change || apply raw_only_wait).
  rewrite <- (app_nil_r (wait 1000)). apply raw_only_wait. constructor.
Qed.

(** The example of the specification, with the paths as [fs.watch] reports
    them below the workspaces directory: five changes of a skill file and one
    of an unrelated file make one notification on each channel. *)
Lemma five_skill_changes_and_a_file :
  sent (run (five_changes_and_another skill_path_posix "default/s1/notes.txt")
            started)
  = [mkDelivery 620 0 WORKSPACE_FILES_CHANGED;
     mkDelivery 700 0 CAPABILITIES_CHANGED].
Proof. vm_compute. reflexivity. Qed.

Lemma debounce_per_category_witness :
  sent_on CAPABILITIES_CHANGED (run (five_changes skill_path_posix) started)
  = [700]
  /\ sent_on WORKSPACE_FILES_CHANGED (run (five_changes skill_path_posix) started)
     = [].
Proof.
  destruct (debounce_per_category started _ (five_changes skill_path_posix)
              live_started eq_refl eq_refl
              (raw_only_five_changes skill_path_posix)) as [Hall Hburst].
  split.
  - rewrite (Hburst CAPABILITIES_CHANGED 0 [50; 100; 150; 200]).
    + reflexivity.
    + vm_compute. reflexivity.
    + vm_compute. repeat split; reflexivity.
    + vm_compute. discriminate.
  - rewrite Hall. vm_compute. reflexivity.
Defined.

(** C5 at a path with the separators of Windows: five changes of a skill
    file are classified as plain file changes and notify on the files
    channel, where the same path with POSIX separators notifies on the
    capabilities channel. *)
Lemma windows_skill_changes_notify_files_channel :
  isCapabilitiesChange skill_path_posix = true
  /\ isCapabilitiesChange skill_path_windows = false
  /\ sent (run (five_changes skill_path_posix) started)
     = [mkDelivery 700 0 CAPABILITIES_CHANGED]
  /\ sent (run (five_changes skill_path_windows) started)
     = [mkDelivery 700 0 WORKSPACE_FILES_CHANGED]
  /\ isCapabilitiesChange
       (String.append "default" (String.append backslash "mcp.json")) = true.
Proof. vm_compute. repeat split; reflexivity. Qed.

End DebounceExamples.

(** ** More of the session manager: removal, and how the operations compose *)

Section SessionCompositionFacts.

Import AgentSessionManager AgentSessionRemoval.
Context {host : Host}.

Lemma find_findIndex {A : Type} (p : A -> bool) (l : list A) :
  List.find p l
  = match Js.findIndex p l with Some k => l !! k | None => None end.
Proof.
  induction l as [|x l IH]; simpl; [reflexivity|].
  destruct (p x); [reflexivity|]. rewrite IH.
  destruct (Js.findIndex p l); reflexivity.
Qed.

Lemma find_app_fresh {A : Type} (p : A -> bool) (l : list A) (x : A) :
  (forall y, In y l -> p y = false) -> List.find p (l ++ [x])
  = if p x then Some x else None.
Proof.
  induction l as [|y l IH]; intros H; simpl; [reflexivity|].
  rewrite (H y (or_introl eq_refl)). apply IH. intros z Hz. apply H.
  right. exact Hz.
Qed.

Lemma find_app_other {A : Type} (p : A -> bool) (l : list A) (x : A) :
  p x = false -> List.find p (l ++ [x]) = List.find p l.
Proof.
  intros Hx. induction l as [|y l IH]; simpl; [rewrite Hx; reflexivity|].
  destruct (p y); [reflexivity|exact IH].
Qed.

Lemma In_delete {A : Type} (k : nat) (l : list A) (x : A) :
  In x (delete k l) -> exists j, j <> k /\ l !! j = Some x.
Proof.
  revert k. induction l as [|y l IH]; intros k; [destruct k; intros []|].
  destruct k as [|k]; simpl.
  - intros Hx. apply list_elem_of_In, list_elem_of_lookup in Hx as [j Hj].
    exists (S j). split; [discriminate|exact Hj].
  - intros [<-|Hx].
    + exists 0%nat. split; [discriminate|reflexivity].
    + destruct (IH k Hx) as (j & Hj & Hl). exists (S j).
      split; [congruence|exact Hl].
Qed.

Lemma getAgentSessionMeta_of_index (sid : string) (fs : FS)
    (index : AgentSessionsIndex) :
  readIndex fs = (Return index, fs) ->
  getAgentSessionMeta sid fs
  = (Return (List.find (fun s => String.eqb (id s) sid) (sessions index)), fs).
Proof.
  intros H. unfold getAgentSessionMeta, bind. rewrite H. reflexivity.
Qed.

Lemma listAgentSessions_of_index (fs : FS) (index : AgentSessionsIndex) :
  readIndex fs = (Return index, fs) ->
  listAgentSessions fs
  = (Return (Js.sort (fun a b => updatedAt b - updatedAt a) (sessions index)),
     fs).
Proof.
  intros H. unfold listAgentSessions, bind. rewrite H. reflexivity.
Qed.

Lemma sort_by_updatedAt_sorted (l : list AgentSessionMeta) :
  StronglySorted (fun a b => updatedAt b <= updatedAt a)
    (Js.sort (fun a b => updatedAt b - updatedAt a) l).
Proof.
  eapply StronglySorted_weaken;
    [|apply (sort_sorted (fun a b : AgentSessionMeta => updatedAt b - updatedAt a))].
  - intros a b Hab. simpl in Hab. lia.
  - intros x y. lia.
  - intros x y z. lia.
Qed.

End SessionCompositionFacts.

Section RemovalFacts.

Import AgentSessionManager AgentSessionRemoval.
Context {host : Host} {dirs : Directories}.

Lemma writeIndex_written (fs : FS) (index : AgentSessionsIndex) :
  getAgentSessionsIndexPath ∉ faulty fs ->
  writeIndex index fs = (Return tt, written fs index).
Proof. apply writeIndex_ok. Qed.

Lemma deleteAgentSession_unknown (sid : string) (fs : FS)
    (index : AgentSessionsIndex) :
  readIndex fs = (Return index, fs) ->
  (forall s, In s (sessions index) -> id s <> sid) ->
  deleteAgentSession sid fs
  = (Throw (String.append "Agent 会话不存在: " sid), fs).
Proof.
  intros Hread Hunknown. unfold deleteAgentSession, bind. rewrite Hread.
  assert (E : Js.findIndex (fun s => String.eqb (id s) sid) (sessions index)
              = None).
  { apply findIndex_None. intros s Hs. apply String.eqb_neq.
    apply Hunknown. exact Hs. }
  rewrite E. reflexivity.
Qed.

(** The removal of the transcript: it never throws, touches no other file,
    and removes the file unless the path is faulty. *)
Lemma removeTranscript_effect (sid : string) (fs : FS) :
  exists fs',
    removeTranscript sid fs = (Return tt, fs')
    /\ faulty fs' = faulty fs
    /\ (forall q, q <> getAgentSessionMessagesPath sid ->
          files fs' !! q = files fs !! q)
    /\ (getAgentSessionMessagesPath sid ∉ faulty fs ->
        files fs' !! getAgentSessionMessagesPath sid = None).
Proof.
  unfold removeTranscript, bind, existsSync, try_catch, unlinkSync.
  destruct (files fs !! getAgentSessionMessagesPath sid) as [c|] eqn:Hf; simpl.
  - destruct (decide (getAgentSessionMessagesPath sid ∈ faulty fs)) as [Hbad|Hok].
    + rewrite bool_decide_eq_true_2 by exact Hbad.
      exists fs. repeat split; auto. intros; contradiction.
    + rewrite bool_decide_eq_false_2 by exact Hok. rewrite Hf.
      eexists. split; [reflexivity|]. simpl. repeat split.
      * intros q Hq. apply lookup_delete_ne. congruence.
      * intros _. apply lookup_delete_eq.
  - exists fs. repeat split; auto.
Qed.

Lemma keeps_step {A : Type} (sid : string) (c : IO A) (fs : FS) :
  keeps_session_files sid c ->
  exists o fs',
    c fs = (o, fs')
    /\ faulty fs' = faulty fs
    /\ files fs' !! getAgentSessionsIndexPath
       = files fs !! getAgentSessionsIndexPath
    /\ files fs' !! getAgentSessionMessagesPath sid
       = files fs !! getAgentSessionMessagesPath sid.
Proof.
  intros H. specialize (H fs). destruct (c fs) as [o fs'].
  exists o, fs'. simpl in H. tauto.
Qed.

(** The removal of the directory: with a host that keeps the two files of
    the session manager it returns and keeps them too. *)
Lemma removeSessionDirectory_effect (removed : AgentSessionMeta) (sid : string)
    (fs : FS) :
  host_keeps_session_files sid ->
  exists fs',
    removeSessionDirectory removed sid fs = (Return tt, fs')
    /\ faulty fs' = faulty fs
    /\ files fs' !! getAgentSessionsIndexPath
       = files fs !! getAgentSessionsIndexPath
    /\ files fs' !! getAgentSessionMessagesPath sid
       = files fs !! getAgentSessionMessagesPath sid.
Proof.
  intros (Hws & Hpath & Hdir & Hrm). unfold removeSessionDirectory.
  destruct (workspaceId removed) as [w|]; [|exists fs; auto].
  destruct (Js.truthy_string w); [|exists fs; auto].
  destruct (Hws w) as [Hkeep Hret].
  destruct (keeps_step sid _ fs Hkeep) as (o & fs1 & E1 & F1 & I1 & M1).
  destruct (Hret fs) as [r Hr]. rewrite E1 in Hr. simpl in Hr. subst o.
  unfold bind at 1. rewrite E1.
  destruct r as [ws|]; [|exists fs1; auto].
  unfold try_catch, bind.
  destruct (keeps_step sid _ fs1 (Hpath (slug ws))) as (o2 & fs2 & E2 & F2 & I2 & M2).
  rewrite E2.
  destruct o2 as [dir|e]; [|exists fs2; repeat split; congruence].
  destruct (keeps_step sid _ fs2 (Hdir dir)) as (o3 & fs3 & E3 & F3 & I3 & M3).
  rewrite E3.
  destruct o3 as [present|e]; [|exists fs3; repeat split; congruence].
  destruct present; [|exists fs3; repeat split; congruence].
  destruct (keeps_step sid _ fs3 (Hrm dir)) as (o4 & fs4 & E4 & F4 & I4 & M4).
  rewrite E4.
  destruct o4 as [[]|e]; exists fs4; repeat split; congruence.
Qed.

Lemma deleteAgentSession_known (sid : string) (fs : FS)
    (index : AgentSessionsIndex) (k : nat) :
  readIndex fs = (Return index, fs) ->
  Js.findIndex (fun s => String.eqb (id s) sid) (sessions index) = Some k ->
  getAgentSessionsIndexPath ∉ faulty fs ->
  getAgentSessionMessagesPath sid <> getAgentSessionsIndexPath ->
  host_keeps_session_files sid ->
  exists removed fs',
    sessions index !! k = Some removed
    /\ id removed = sid
    /\ deleteAgentSession sid fs = (Return tt, fs')
    /\ faulty fs' = faulty fs
    /\ files fs' !! getAgentSessionsIndexPath
       = Some (JSON_stringify_index
                 {| version := version index;
                    sessions := delete k (sessions index) |})
    /\ (getAgentSessionMessagesPath sid ∉ faulty fs ->
        files fs' !! getAgentSessionMessagesPath sid = None).
Proof.
  intros Hread Hfind Hok Hne Hhost.
  destruct (findIndex_Some _ _ _ Hfind) as (removed & Hk & Hid & _).
  exists removed.
  unfold deleteAgentSession, bind. rewrite Hread, Hfind, Hk.
  rewrite (writeIndex_ok fs _ Hok).
  match goal with |- context [removeTranscript sid ?f] =>
    destruct (removeTranscript_effect sid f) as (fs2 & E2 & F2 & O2 & M2) end.
  rewrite E2.
  destruct (removeSessionDirectory_effect removed sid fs2 Hhost)
    as (fs3 & E3 & F3 & I3 & M3).
  rewrite E3. exists fs3.
  split; [reflexivity|]. split; [apply String.eqb_eq; exact Hid|].
  split; [reflexivity|]. simpl in F2.
  split; [congruence|]. split.
  - rewrite I3, O2 by congruence. simpl. apply lookup_insert_eq.
  - intros Hm. rewrite M3. apply M2. exact Hm.
Qed.

Hypothesis index_roundtrip :
  forall index, JSON_parse_index (JSON_stringify_index index) = Some index.

Lemma readIndex_of_file (fs : FS) (index : AgentSessionsIndex) :
  getAgentSessionsIndexPath ∉ faulty fs ->
  files fs !! getAgentSessionsIndexPath = Some (JSON_stringify_index index) ->
  readIndex fs = (Return index, fs).
Proof.
  intros Hok Hf.
  apply (readIndex_parsed fs (JSON_stringify_index index) index Hf Hok).
  apply index_roundtrip.
Qed.



End RemovalFacts.

Section RemovalExamples.

Import AgentSessionManager AgentSessionRemoval ExampleHost RemovalExample.

Lemma stored_sessions_index :
  readIndex stored_sessions_fs
  = (Return (mkIndex 1 [session_a; session_in_workspace]), stored_sessions_fs).
Proof.
  apply (readIndex_parsed _
           (stringify (mkIndex 1 [session_a; session_in_workspace]))).
  - reflexivity.
  - simpl. set_solver.
  - apply parse_stringify.
Qed.

Lemma example_host_keeps (sid : string) : host_keeps_session_files sid.
Proof.
  repeat split; intros; try reflexivity; eexists; reflexivity.
Qed.

Lemma second_is_b (k : nat) (removed : AgentSessionMeta) :
  [session_a; session_in_workspace] !! k = Some removed ->
  id removed = "b"%string ->
  k = 1%nat /\ removed = session_in_workspace.
Proof.
  destruct k as [|[|k]]; simpl; intros H Hid.
  - injection H as <-. discriminate.
  - injection H as <-. auto.
  - discriminate.
Qed.

Lemma only_second_is_b (j : nat) (s : AgentSessionMeta) :
  j <> 1%nat -> [session_a; session_in_workspace] !! j = Some s ->
  id s <> "b"%string.
Proof.
  intros Hj Hl. destruct j as [|[|j]]; simpl in Hl; try discriminate.
  - injection Hl as <-. discriminate.
  - contradiction.
Qed.



End RemovalExamples.

Section CreateUpdateCompositionFacts.

Import AgentSessionManager AgentSessionRemoval.
Context {host : Host}.

Lemma createAgentSession_written (uuid : string) (now : Z)
    (title_arg channelId_arg workspaceId_arg : option string) (fs : FS)
    (index : AgentSessionsIndex) :
  readIndex fs = (Return index, fs) ->
  getAgentSessionsIndexPath ∉ faulty fs ->
  helpers_quiet ->
  createAgentSession uuid now title_arg channelId_arg workspaceId_arg fs
  = (Return {| id := uuid;
               title := Js.or_default title_arg "新 Agent 会话";
               channelId := channelId_arg;
               workspaceId := workspaceId_arg;
               sdkSessionId := None;
               createdAt := now;
               updatedAt := now |},
     written fs
       {| version := version index;
          sessions :=
            sessions index
            ++ [{| id := uuid;
                   title := Js.or_default title_arg "新 Agent 会话";
                   channelId := channelId_arg;
                   workspaceId := workspaceId_arg;
                   sdkSessionId := None;
                   createdAt := now;
                   updatedAt := now |}] |}).
Proof.
  intros Hread Hok (Hdir & Hws & Hpath).
  unfold createAgentSession, bind. rewrite Hread.
  rewrite (writeIndex_ok fs _ Hok). fold (written fs).
  match goal with |- context [getAgentSessionsDir ?f] =>
    destruct (Hdir f) as (d & ->) end.
  destruct workspaceId_arg as [w|]; [|reflexivity].
  destruct (Js.truthy_string w); [|reflexivity].
  match goal with |- context [getAgentWorkspace w ?f] =>
    destruct (Hws w f) as ([ws|] & ->) end; [|reflexivity].
  match goal with |- context [getAgentSessionWorkspacePath ?a ?b ?f] =>
    destruct (Hpath a b f) as (p & ->) end.
  reflexivity.
Qed.

Lemma findIndex_insert {A : Type} (p : A -> bool) (l : list A) (k : nat) (u : A) :
  Js.findIndex p l = Some k -> p u = true ->
  Js.findIndex p (<[k := u]> l) = Some k.
Proof.
  revert k. induction l as [|x l IH]; intros k; simpl; [discriminate|].
  destruct (p x) eqn:Hx.
  - intros [= <-] Hu. simpl. rewrite Hu. reflexivity.
  - destruct (Js.findIndex p l) as [k'|] eqn:E; simpl; [|discriminate].
    intros [= <-] Hu. simpl. rewrite Hx, (IH k' eq_refl Hu). reflexivity.
Qed.

Lemma In_insert {A : Type} (l : list A) (k : nat) (u x : A) :
  In x (<[k := u]> l) -> x = u \/ In x l.
Proof.
  revert k. induction l as [|y l IH]; intros k; simpl; [intros []|].
  destruct k as [|k]; simpl.
  - intros [<-|H]; auto.
  - intros [<-|H]; auto. destruct (IH k H); auto.
Qed.

(** The head of a list sorted from the latest to the earliest is the one
    element that is later than all the others. *)
Lemma sorted_head_latest (l : list AgentSessionMeta) (u : AgentSessionMeta) :
  StronglySorted (fun a b => updatedAt b <= updatedAt a) l ->
  In u l ->
  (forall x, In x l -> x = u \/ updatedAt x < updatedAt u) ->
  head l = Some u.
Proof.
  intros Hs Hin Hmax. destruct l as [|h l]; [destruct Hin|]. simpl.
  destruct (Hmax h (or_introl eq_refl)) as [->|Hlt]; [reflexivity|].
  exfalso. destruct Hin as [->|Hin]; [lia|].
  apply StronglySorted_inv in Hs as [_ Hall].
  rewrite Forall_forall in Hall. apply list_elem_of_In in Hin.
  specialize (Hall u Hin). simpl in Hall. lia.
Qed.

Hypothesis index_roundtrip :
  forall index, JSON_parse_index (JSON_stringify_index index) = Some index.

Lemma readIndex_written (fs : FS) (index : AgentSessionsIndex) :
  getAgentSessionsIndexPath ∉ faulty fs ->
  readIndex (written fs index) = (Return index, written fs index).
Proof. apply (readIndex_after_write index_roundtrip). Qed.

(** X4: a successful [createAgentSession] is seen by the reads that follow:
    the index holds the old sessions followed by the new one,
    [listAgentSessions] lists the new session together with the sessions
    listed before, from the latest to the earliest,
    [getAgentSessionMeta] finds the new session under its id when the id is
    fresh and answers as before for every other id, and no file but the index
    is changed. *)
Theorem createAgentSession_then_read (uuid : string) (now : Z)
    (title_arg channelId_arg workspaceId_arg : option string) (fs : FS)
    (index : AgentSessionsIndex) :
  readIndex fs = (Return index, fs) ->
  getAgentSessionsIndexPath ∉ faulty fs ->
  helpers_quiet ->
  exists meta fs' before after,
    createAgentSession uuid now title_arg channelId_arg workspaceId_arg fs
    = (Return meta, fs')
    /\ readIndex fs'
       = (Return {| version := version index;
                    sessions := sessions index ++ [meta] |}, fs')
    /\ listAgentSessions fs = (Return before, fs)
    /\ listAgentSessions fs' = (Return after, fs')
    /\ Permutation after (meta :: before)
    /\ StronglySorted (fun a b => updatedAt b <= updatedAt a) after
    /\ ((forall s, In s (sessions index) -> id s <> uuid) ->
        getAgentSessionMeta uuid fs' = (Return (Some meta), fs'))
    /\ (forall sid, sid <> uuid ->
          fst (getAgentSessionMeta sid fs') = fst (getAgentSessionMeta sid fs))
    /\ (forall path, path <> getAgentSessionsIndexPath ->
          files fs' !! path = files fs !! path).
Proof.
  intros Hread Hok Hquiet.
  pose proof (createAgentSession_written uuid now title_arg channelId_arg
                workspaceId_arg fs index Hread Hok Hquiet) as Hrun.
  set (meta := {| id := uuid;
                  title := Js.or_default title_arg "新 Agent 会话";
                  channelId := channelId_arg;
                  workspaceId := workspaceId_arg;
                  sdkSessionId := None;
                  createdAt := now;
                  updatedAt := now |}) in *.
  set (index' := {| version := version index;
                    sessions := sessions index ++ [meta] |}) in *.
  assert (Hread' : readIndex (written fs index') = (Return index', written fs index'))
    by (apply readIndex_written; exact Hok).
  exists meta, (written fs index').
  exists (Js.sort (fun a b => updatedAt b - updatedAt a) (sessions index)).
  exists (Js.sort (fun a b => updatedAt b - updatedAt a) (sessions index')).
  split; [exact Hrun|]. split; [exact Hread'|].
  split; [apply listAgentSessions_of_index; exact Hread|].
  split; [apply listAgentSessions_of_index; exact Hread'|].
  split.
  { rewrite !sort_perm. unfold index'. simpl.
    rewrite Permutation_app_comm. reflexivity. }
  split; [apply sort_by_updatedAt_sorted|].
  split.
  { intros Hfresh.
    rewrite (getAgentSessionMeta_of_index uuid _ _ Hread'). unfold index'. simpl.
    rewrite find_app_fresh.
    - simpl. rewrite String.eqb_refl. reflexivity.
    - intros y Hy. apply String.eqb_neq. apply Hfresh. exact Hy. }
  split.
  { intros sid Hsid.
    rewrite (getAgentSessionMeta_of_index sid _ _ Hread').
    rewrite (getAgentSessionMeta_of_index sid _ _ Hread). simpl.
    rewrite find_app_other; [reflexivity|].
    simpl. apply String.eqb_neq. congruence. }
  intros path Hpath. simpl. apply lookup_insert_ne. congruence.
Qed.

(** X5: when the index file exists but does not parse, [createAgentSession]
    starts from the empty index and overwrites the file: afterwards the index
    holds the new session only, whatever the file held. *)
Theorem createAgentSession_on_corrupt_index (uuid : string) (now : Z)
    (title_arg channelId_arg workspaceId_arg : option string) (fs : FS)
    (raw : string) :
  files fs !! getAgentSessionsIndexPath = Some raw ->
  JSON_parse_index raw = None ->
  getAgentSessionsIndexPath ∉ faulty fs ->
  helpers_quiet ->
  exists meta fs',
    createAgentSession uuid now title_arg channelId_arg workspaceId_arg fs
    = (Return meta, fs')
    /\ id meta = uuid
    /\ readIndex fs'
       = (Return {| version := INDEX_VERSION; sessions := [meta] |}, fs')
    /\ listAgentSessions fs' = (Return [meta], fs').
Proof.
  intros Hf Hp Hok Hquiet.
  pose proof (readIndex_unparseable fs raw Hf Hp) as Hread.
  pose proof (createAgentSession_written uuid now title_arg channelId_arg
                workspaceId_arg fs emptyIndex Hread Hok Hquiet) as Hrun.
  eexists _, _. split; [exact Hrun|]. split; [reflexivity|].
  assert (Hread' := readIndex_written fs
            {| version := INDEX_VERSION;
               sessions := [] ++ [{| id := uuid;
                   title := Js.or_default title_arg "新 Agent 会话";
                   channelId := channelId_arg;
                   workspaceId := workspaceId_arg;
                   sdkSessionId := None;
                   createdAt := now;
                   updatedAt := now |}] |} Hok).
  split; [exact Hread'|].
  exact (listAgentSessions_of_index _ _ Hread').
Qed.

(** X6: a successful [updateAgentSessionMeta] is seen by the reads that
    follow: [getAgentSessionMeta] returns the updated record for that id,
    and when the time of the update is later than the [updatedAt] of every
    session of the index, [listAgentSessions] puts the updated session
    first. *)
Theorem updateAgentSessionMeta_then_read (now : Z) (sid : string)
    (updates : MetaUpdates) (fs : FS) (index : AgentSessionsIndex) :
  readIndex fs = (Return index, fs) ->
  (exists s, In s (sessions index) /\ id s = sid) ->
  getAgentSessionsIndexPath ∉ faulty fs ->
  exists updated fs' after,
    updateAgentSessionMeta now sid updates fs = (Return updated, fs')
    /\ getAgentSessionMeta sid fs' = (Return (Some updated), fs')
    /\ listAgentSessions fs' = (Return after, fs')
    /\ List.length after = List.length (sessions index)
    /\ ((forall s, In s (sessions index) -> updatedAt s < now) ->
        head after = Some updated).
Proof.
  intros Hread (s & Hs & Hid) Hok.
  destruct (Js.findIndex (fun s => String.eqb (id s) sid) (sessions index))
    as [k|] eqn:Hfind.
  2:{ exfalso. rewrite findIndex_None in Hfind. specialize (Hfind s Hs).
      apply String.eqb_neq in Hfind. contradiction. }
  destruct (updateAgentSessionMeta_known now sid updates fs index k
              Hread Hfind Hok) as (existing & Hk & Hex & _ & Hrun).
  set (updated := merge_updates existing updates now) in *.
  set (index' := {| version := version index;
                    sessions := <[k := updated]> (sessions index) |}) in *.
  fold (written fs index') in Hrun.
  assert (Hread' : readIndex (written fs index') = (Return index', written fs index'))
    by (apply readIndex_written; exact Hok).
  exists updated, (written fs index').
  exists (Js.sort (fun a b => updatedAt b - updatedAt a) (sessions index')).
  split; [exact Hrun|]. split.
  { rewrite (getAgentSessionMeta_of_index sid _ _ Hread'). unfold index'. simpl.
    rewrite find_findIndex, (findIndex_insert _ _ k updated Hfind).
    - rewrite list_lookup_insert_eq; [reflexivity|].
      apply lookup_lt_Some in Hk. exact Hk.
    - simpl. apply String.eqb_eq. exact Hex. }
  split; [apply listAgentSessions_of_index; exact Hread'|].
  split.
  { rewrite (Permutation_length (sort_perm _ _)). unfold index'. simpl.
    apply length_insert. }
  intros Hlate. apply sorted_head_latest.
  - apply sort_by_updatedAt_sorted.
  - apply (Permutation_in _ (Permutation_sym (sort_perm _ _))).
    unfold index'. simpl. apply list_elem_of_In, list_elem_of_lookup.
    exists k. apply list_lookup_insert_eq. apply lookup_lt_Some in Hk. exact Hk.
  - intros x Hx. apply (Permutation_in _ (sort_perm _ _)) in Hx.
    unfold index' in Hx. simpl in Hx. apply In_insert in Hx as [->|Hx]; [auto|].
    right. specialize (Hlate x Hx). unfold updated. simpl. exact Hlate.
Qed.

End CreateUpdateCompositionFacts.

Section CreateUpdateCompositionExamples.

Import AgentSessionManager AgentSessionRemoval ExampleHost CompositionExample.

Lemma example_helpers_quiet : helpers_quiet.
Proof. repeat split; intros; eexists; reflexivity. Qed.

Lemma two_sessions_writable :
  getAgentSessionsIndexPath ∉ faulty two_sessions_fs.
Proof. simpl. set_solver. Qed.

Lemma two_sessions_fresh_c (s : AgentSessionMeta) :
  In s [session_a; session_b] -> id s <> "c"%string.
Proof. intros [<-|[<-|[]]]; discriminate. Qed.

Lemma two_sessions_before_99 (s : AgentSessionMeta) :
  In s [session_a; session_b] -> updatedAt s < 99.
Proof. intros [<-|[<-|[]]]; reflexivity. Qed.

Lemma two_sessions_has_b :
  exists s, In s [session_a; session_b] /\ id s = "b"%string.
Proof. exists session_b. split; [right; left|]; reflexivity. Qed.

Lemma createAgentSession_then_read_witness :
  exists meta fs',
    createAgentSession "c" 40 (Some "third"%string) None None two_sessions_fs
    = (Return meta, fs')
    /\ getAgentSessionMeta "c" fs' = (Return (Some meta), fs').
Proof.
  destruct (createAgentSession_then_read (host := example_host)
              (fun i => parse_stringify i) "c" 40 (Some "third"%string) None None
              two_sessions_fs _ two_sessions_index two_sessions_writable
              example_helpers_quiet)
    as (meta & fs' & before & after & Hrun & _ & _ & _ & _ & _ & Hget & _).
  exists meta, fs'. split; [exact Hrun|].
  apply Hget. exact two_sessions_fresh_c.
Defined.

Lemma createAgentSession_on_corrupt_index_witness :
  exists meta fs',
    createAgentSession "c" 40 None None None corrupt_index_fs = (Return meta, fs')
    /\ listAgentSessions fs' = (Return [meta], fs').
Proof.
  destruct (createAgentSession_on_corrupt_index (host := example_host)
              (fun i => parse_stringify i) "c" 40 None None None
              corrupt_index_fs "not json")
    as (meta & fs' & Hrun & _ & _ & Hlist).
  - reflexivity.
  - reflexivity.
  - simpl. set_solver.
  - exact example_helpers_quiet.
  - exists meta, fs'. split; [exact Hrun|exact Hlist].
Defined.

Lemma updateAgentSessionMeta_then_read_witness :
  exists updated fs' after,
    updateAgentSessionMeta 99 "b" (rename_to "renamed") two_sessions_fs
    = (Return updated, fs')
    /\ getAgentSessionMeta "b" fs' = (Return (Some updated), fs')
    /\ listAgentSessions fs' = (Return after, fs')
    /\ head after = Some updated.
Proof.
  destruct (updateAgentSessionMeta_then_read (host := example_host)
              (fun i => parse_stringify i) 99 "b" (rename_to "renamed")
              two_sessions_fs _ two_sessions_index two_sessions_has_b
              two_sessions_writable)
    as (updated & fs' & after & Hrun & Hget & Hlist & _ & Hhead).
  exists updated, fs', after.
  split; [exact Hrun|]. split; [exact Hget|]. split; [exact Hlist|].
  apply Hhead. exact two_sessions_before_99.
Defined.

End CreateUpdateCompositionExamples.

Section AppendFacts.

Import AgentSessionManager.
Context {host : Host}.

(** Splitting at a separator splits the parts on both sides of it. *)
Lemma split_app (sep : ascii) (a b : string) :
  Js.split sep (String.append a (String sep b))
  = Js.split sep a ++ Js.split sep b.
Proof.
  induction a as [|c a IH].
  - rewrite append_nil. simpl. rewrite Ascii.eqb_refl. reflexivity.
  - rewrite append_cons. simpl. destruct (Ascii.eqb c sep).
    + rewrite IH. reflexivity.
    + rewrite IH. pose proof (split_not_nil sep a) as Hne.
      destruct (Js.split sep a) as [|w ws]; [congruence|reflexivity].
Qed.

Lemma parsed_lines_append (raw s : string) :
  raw = EmptyString
  \/ (exists r, raw = String.append r (String Js.LF EmptyString)) ->
  Js.single_line s ->
  Js.trim_truthy s = true ->
  parsed_lines (String.append raw (String.append s (String Js.LF EmptyString)))
  = parsed_lines raw ++ [s].
Proof.
  intros Hend Hs Ht. unfold parsed_lines.
  assert (Hline : List.filter Js.trim_truthy
                    (Js.split Js.LF (String.append s (String Js.LF EmptyString)))
                  = [s]).
  { rewrite (split_line s EmptyString Hs). simpl. rewrite Ht. reflexivity. }
  destruct Hend as [->|(r & ->)].
  - rewrite append_nil, Hline. reflexivity.
  - rewrite append_assoc, append_cons, append_nil.
    rewrite (split_app Js.LF r (String.append s (String Js.LF EmptyString))).
    rewrite (split_app Js.LF r EmptyString).
    rewrite !List.filter_app, Hline. simpl. rewrite app_nil_r. reflexivity.
Qed.

Lemma readIndex_agree (fs1 fs2 : FS) :
  files fs1 !! getAgentSessionsIndexPath = files fs2 !! getAgentSessionsIndexPath ->
  faulty fs1 = faulty fs2 ->
  fst (readIndex fs1) = fst (readIndex fs2).
Proof.
  intros Hf Hb.
  destruct (files fs2 !! getAgentSessionsIndexPath) as [raw|] eqn:E2.
  - destruct (decide (getAgentSessionsIndexPath ∈ faulty fs2)) as [Hbad|Hok].
    + rewrite !readIndex_unreadable; [reflexivity|exact Hbad|].
      rewrite Hb. exact Hbad.
    + assert (Hok1 : getAgentSessionsIndexPath ∉ faulty fs1)
        by (rewrite Hb; exact Hok).
      destruct (JSON_parse_index raw) as [index|] eqn:Hp.
      * rewrite (readIndex_parsed fs1 raw index Hf Hok1 Hp).
        rewrite (readIndex_parsed fs2 raw index E2 Hok Hp). reflexivity.
      * rewrite (readIndex_unparseable fs1 raw Hf Hp).
        rewrite (readIndex_unparseable fs2 raw E2 Hp). reflexivity.
  - rewrite !readIndex_absent by assumption. reflexivity.
Qed.

Lemma listAgentSessions_agree (fs1 fs2 : FS) :
  files fs1 !! getAgentSessionsIndexPath = files fs2 !! getAgentSessionsIndexPath ->
  faulty fs1 = faulty fs2 ->
  fst (listAgentSessions fs1) = fst (listAgentSessions fs2).
Proof.
  intros Hf Hb. pose proof (readIndex_agree fs1 fs2 Hf Hb) as H.
  destruct (readIndex_returns fs1) as (i1 & E1).
  destruct (readIndex_returns fs2) as (i2 & E2).
  rewrite E1, E2 in H. simpl in H.
  rewrite (listAgentSessions_of_index _ _ E1), (listAgentSessions_of_index _ _ E2).
  simpl. congruence.
Qed.

Lemma getAgentSessionMessages_agree (sid : string) (fs1 fs2 : FS) :
  files fs1 !! getAgentSessionMessagesPath sid
  = files fs2 !! getAgentSessionMessagesPath sid ->
  faulty fs1 = faulty fs2 ->
  fst (getAgentSessionMessages sid fs1) = fst (getAgentSessionMessages sid fs2).
Proof.
  intros Hf Hb.
  destruct (files fs2 !! getAgentSessionMessagesPath sid) as [raw|] eqn:E2.
  - destruct (decide (getAgentSessionMessagesPath sid ∈ faulty fs2)) as [Hbad|Hok].
    + rewrite !getAgentSessionMessages_unreadable; [reflexivity|exact Hbad|].
      rewrite Hb. exact Hbad.
    + assert (Hok1 : getAgentSessionMessagesPath sid ∉ faulty fs1)
        by (rewrite Hb; exact Hok).
      destruct (parse_lines_cases (parsed_lines raw))
        as [(ms & Hall)|(line & Hin & Hnone)].
      * rewrite (getAgentSessionMessages_good sid raw fs1 ms Hf Hok1 Hall).
        rewrite (getAgentSessionMessages_good sid raw fs2 ms E2 Hok Hall).
        reflexivity.
      * rewrite (getAgentSessionMessages_bad_line sid raw line fs1 Hf Hin Hnone).
        rewrite (getAgentSessionMessages_bad_line sid raw line fs2 E2 Hin Hnone).
        reflexivity.
  - rewrite !getAgentSessionMessages_absent by assumption. reflexivity.
Qed.

(** X8: [appendAgentMessage] either throws '追加 Agent 消息失败' and changes
    nothing, which is what happens when the transcript cannot be written, or
    returns after putting the line of the message and a line feed behind what
    the transcript held (nothing, if the file did not exist); no other file
    changes, so [listAgentSessions] and the messages of every other
    transcript read as before. *)
Theorem appendAgentMessage_effect (sid : string) (m : AgentMessage) (fs : FS) :
  ((getAgentSessionMessagesPath sid ∈ faulty fs) /\
   appendAgentMessage sid m fs = (Throw "追加 Agent 消息失败", fs))
  \/ ((getAgentSessionMessagesPath sid ∉ faulty fs) /\
      exists fs',
        appendAgentMessage sid m fs = (Return tt, fs')
        /\ files fs' !! getAgentSessionMessagesPath sid
           = Some (String.append
                     (default EmptyString
                        (files fs !! getAgentSessionMessagesPath sid))
                     (String.append (JSON_stringify_message m)
                        (String Js.LF EmptyString)))
        /\ faulty fs' = faulty fs
        /\ (forall path, path <> getAgentSessionMessagesPath sid ->
              files fs' !! path = files fs !! path)
        /\ (getAgentSessionMessagesPath sid <> getAgentSessionsIndexPath ->
            fst (listAgentSessions fs') = fst (listAgentSessions fs))
        /\ (forall other,
              getAgentSessionMessagesPath other <> getAgentSessionMessagesPath sid ->
              fst (getAgentSessionMessages other fs')
              = fst (getAgentSessionMessages other fs))).
Proof.
  destruct (decide (getAgentSessionMessagesPath sid ∈ faulty fs)) as [Hbad|Hok].
  - left. split; [exact Hbad|].
    unfold appendAgentMessage, try_catch, appendFileSync.
    rewrite bool_decide_eq_true_2 by exact Hbad. reflexivity.
  - right. split; [exact Hok|].
    unfold appendAgentMessage, try_catch, appendFileSync.
    rewrite bool_decide_eq_false_2 by exact Hok.
    eexists. split; [reflexivity|]. simpl.
    split; [apply lookup_insert_eq|]. split; [reflexivity|].
    assert (Hframe : forall path, path <> getAgentSessionMessagesPath sid ->
              <[getAgentSessionMessagesPath sid :=
                  String.append
                    (default EmptyString
                       (files fs !! getAgentSessionMessagesPath sid))
                    (String.append (JSON_stringify_message m)
                       (String Js.LF EmptyString))]> (files fs) !! path
              = files fs !! path).
    { intros path Hp. apply lookup_insert_ne. congruence. }
    split; [exact Hframe|]. split.
    + intros Hne. apply listAgentSessions_agree; [|reflexivity].
      simpl. apply Hframe. congruence.
    + intros other Hne. apply getAgentSessionMessages_agree; [|reflexivity].
      simpl. apply Hframe. exact Hne.
Qed.


Hypothesis parse_stringify :
  forall m, JSON_parse_message (JSON_stringify_message m) = Some m.
Hypothesis stringify_single_line :
  forall m, Js.single_line (JSON_stringify_message m).
Hypothesis stringify_not_blank :
  forall m, Js.trim_truthy (JSON_stringify_message m) = true.

(** X7: a transcript that reads as [ms] (every line that is not blank
    parses) and is empty or ends with a line feed reads as [ms] followed by
    [m] after [appendAgentMessage] of [m], whatever wrote the transcript. *)
Theorem appendAgentMessage_extends_readable (sid : string) (m : AgentMessage)
    (fs : FS) (raw : string) (ms : list AgentMessage) :
  files fs !! getAgentSessionMessagesPath sid = Some raw ->
  getAgentSessionMessagesPath sid ∉ faulty fs ->
  raw = EmptyString
  \/ (exists r, raw = String.append r (String Js.LF EmptyString)) ->
  Forall2 (fun line msg => JSON_parse_message line = Some msg)
          (parsed_lines raw) ms ->
  getAgentSessionMessages sid fs = (Return ms, fs)
  /\ exists fs',
       appendAgentMessage sid m fs = (Return tt, fs')
       /\ getAgentSessionMessages sid fs' = (Return (ms ++ [m]), fs').
Proof.
  intros Hf Hok Hend Hall.
  split; [exact (getAgentSessionMessages_good sid raw fs ms Hf Hok Hall)|].
  unfold appendAgentMessage, try_catch, appendFileSync.
  rewrite bool_decide_eq_false_2 by exact Hok. rewrite Hf. simpl.
  eexists. split; [reflexivity|].
  eapply getAgentSessionMessages_good.
  - simpl. apply lookup_insert_eq.
  - exact Hok.
  - rewrite parsed_lines_append;
      [|exact Hend|apply stringify_single_line|apply stringify_not_blank].
    apply Forall2_app; [exact Hall|].
    constructor; [apply parse_stringify|constructor].
Qed.

End AppendFacts.

Section AppendExamples.

Import AgentSessionManager AgentSessionRemoval ExampleHost RemovalExample
       CompositionExample.

Lemma stored_transcript_ends_with_line_feed :
  exists r,
    jsonl (host := example_host) ["hi"; "there"]%string
    = String.append r (String Js.LF EmptyString).
Proof.
  exists (String.append (jsonl (host := example_host) ["hi"%string])
            (JSON_stringify_message (Host := example_host) "there"%string)).
  change ["hi"; "there"]%string
    with (List.app ["hi"%string] ["there"%string]).
  rewrite (jsonl_snoc (host := example_host)), append_assoc. reflexivity.
Qed.

Lemma stored_transcript_lookup :
  files stored_sessions_fs !! getAgentSessionMessagesPath "b"
  = Some (jsonl (host := example_host) ["hi"; "there"]%string).
Proof. reflexivity. Qed.

Lemma stored_transcript_writable :
  getAgentSessionMessagesPath "b" ∉ faulty stored_sessions_fs.
Proof. simpl. set_solver. Qed.

Lemma appendAgentMessage_extends_readable_witness :
  getAgentSessionMessages "b" stored_sessions_fs
  = (Return ["hi"; "there"]%string, stored_sessions_fs)
  /\ exists fs',
       appendAgentMessage "b" "again"%string stored_sessions_fs = (Return tt, fs')
       /\ getAgentSessionMessages "b" fs'
          = (Return ["hi"; "there"; "again"]%string, fs').
Proof.
  apply (appendAgentMessage_extends_readable (host := example_host)
           (fun m => parse_stringify m) (fun m => stringify_single_line m)
           (fun m => stringify_not_blank m)
           "b" "again"%string stored_sessions_fs
           (jsonl (host := example_host) ["hi"; "there"]%string)
           ["hi"; "there"]%string).
  - exact stored_transcript_lookup.
  - exact stored_transcript_writable.
  - right. exact stored_transcript_ends_with_line_feed.
  - rewrite (parsed_lines_jsonl (host := example_host)
               (fun m => stringify_single_line m)
               (fun m => stringify_not_blank m)).
    apply (parse_map_stringify (host := example_host)
             (fun m => parse_stringify m)).
Defined.

Lemma read_only_index : getAgentSessionsIndexPath ∈ faulty read_only_fs.
Proof. simpl. set_solver. Qed.


End AppendExamples.

Section WatcherSafetyFacts.

Import WorkspaceWatcher WatcherLog WatcherSafety.
Local Open Scope N_scope.

Lemma explained_app (log more : list (N * Channel)) (t : N) (c : Channel) :
  explained log t c -> explained (log ++ more) t c.
Proof.
  intros (t0 & E & Hin). exists t0. split; [exact E|].
  apply in_or_app. left. exact Hin.
Qed.

(** A timer that is pending after a raw event was pending before, or was
    armed by the event, for its category and one window ahead. *)
Lemma deliver_change_timers (w : World) (filename : option string)
    (i : Instance) (c : Channel) (d : N) :
  timer_of c (deliver_change w filename i) = Some d ->
  timer_of c i = Some d
  \/ (exists f, filename = Some f /\ Js.truthy_string f = true
                /\ category f = c /\ d = now w + DEBOUNCE_MS).
Proof.
  unfold deliver_change. destruct (closed i); [auto|].
  unfold on_change. destruct filename as [f|]; [|auto].
  destruct (Js.truthy_string f) eqn:Hf; simpl; [|auto].
  destruct (isDestroyed w (win i)); [auto|].
  destruct (isCapabilitiesChange f) eqn:Hc; destruct c; simpl; auto;
    intros [= <-]; right; exists f; unfold category; rewrite Hc; auto.
Qed.

Lemma fire_timer (t : N) (alive : bool) (window : nat) (c : Channel)
    (timer : option N) (d : N) :
  fst (fire t alive window c timer) = Some d -> timer = Some d /\ t < d.
Proof.
  unfold fire. destruct timer as [deadline|]; [|discriminate].
  destruct (N.leb_spec deadline t); simpl; [discriminate|].
  intros [= <-]. split; [reflexivity|assumption].
Qed.

Lemma tick_instance_timers (w : World) (t : N) (i : Instance) (c : Channel)
    (d : N) :
  timer_of c (fst (tick_instance w t i)) = Some d ->
  timer_of c i = Some d /\ t < d.
Proof. destruct c; simpl; apply fire_timer. Qed.

Lemma tick_instance_sent (w : World) (t : N) (i : Instance) (dl : Delivery) :
  In dl (snd (tick_instance w t i)) ->
  at_time dl = t
  /\ exists deadline, timer_of (channel dl) i = Some deadline /\ deadline <= t.
Proof.
  unfold tick_instance. simpl. intros H. apply in_app_or in H as [H|H];
    apply fire_alive in H as (_ & _ & -> & Ht & deadline & Hd & Hle);
    (split; [exact Ht|]); exists deadline; simpl; auto.
Qed.

Lemma tick_all_timers (w : World) (t : N) (l : list Instance)
    (P : Instance -> Prop) (Q : Instance -> Prop) :
  (forall i, P i -> Q (fst (tick_instance w t i))) ->
  Forall P l -> Forall Q (fst (tick_all w t l)).
Proof.
  intros H HP. induction HP as [|i l Hi _ IH]; [constructor|].
  change (fst (tick_all w t (i :: l)))
    with (fst (tick_instance w t i) :: fst (tick_all w t l)).
  constructor; auto.
Qed.

Lemma tick_all_sent (w : World) (t : N) (l : list Instance) (dl : Delivery) :
  In dl (snd (tick_all w t l)) ->
  exists i, In i l /\ In dl (snd (tick_instance w t i)).
Proof.
  induction l as [|i l IH]; simpl; [intros []|].
  intros H. apply in_app_or in H as [H|H].
  - exists i. auto.
  - destruct (IH H) as (i' & Hin & Hd). exists i'. auto.
Qed.

Lemma change_log_step (a : Action) (trace : list Action) (w : World) :
  change_log (now w) (a :: trace)
  = change_log (now w) [a] ++ change_log (now (step a w)) trace.
Proof.
  destruct a as [window| |[f|]|window|]; simpl.
  - unfold startWorkspaceWatcher. destruct (negb (watchDirExists w)); reflexivity.
  - unfold stopWorkspaceWatcher. destruct (watcher w); reflexivity.
  - destruct (Js.truthy_string f); reflexivity.
  - reflexivity.
  - reflexivity.
  - reflexivity.
Qed.

Lemma justified_step (old : list Delivery) (log : list (N * Channel))
    (a : Action) (w : World) :
  justified old log w ->
  justified old (log ++ change_log (now w) [a]) (step a w).
Proof.
  intros [Ht Hs].
  assert (Hs' : forall more,
            Forall (fun dl => In dl old
                              \/ explained (log ++ more) (at_time dl) (channel dl))
                   (sent w)).
  { intros more. eapply Forall_impl; [exact Hs|].
    intros dl [H|H]; [left; exact H|right; apply explained_app; exact H]. }
  assert (Ht' : forall more,
            Forall (fun i => forall c d, timer_of c i = Some d ->
                       now w < d /\ explained (log ++ more) d c) (instances w)).
  { intros more. eapply Forall_impl; [exact Ht|].
    intros i H c d E. destruct (H c d E) as [Hlt Hex].
    split; [exact Hlt|apply explained_app; exact Hex]. }
  destruct a as [window| |filename|window|].
  - split; [|].
    + simpl. unfold startWorkspaceWatcher.
      destruct (negb (watchDirExists w)); [apply Ht'|]. simpl.
      apply Forall_app. split; [apply Ht'|].
      constructor; [|constructor]. intros [] d; discriminate.
    + simpl. unfold startWorkspaceWatcher.
      destruct (negb (watchDirExists w)); apply Hs'.
  - split.
    + simpl. unfold stopWorkspaceWatcher.
      destruct (watcher w) as [k|]; [|apply Ht']. simpl.
      apply Forall_alter; [apply Ht'|].
      intros i _ H c d E. apply (H c d). destruct c; exact E.
    + simpl. unfold stopWorkspaceWatcher.
      destruct (watcher w); apply Hs'.
  - split; [|apply Hs'].
    change (instances (step (Change filename) w))
      with (List.map (deliver_change w filename) (instances w)).
    change (now (step (Change filename) w)) with (now w).
    apply List.Forall_map.
    eapply Forall_impl; [apply (Ht' (change_log (now w) [Change filename]))|].
    intros i H c d E.
    apply deliver_change_timers in E as [E|(f & -> & Hf & <- & ->)].
    + exact (H c d E).
    + split; [unfold DEBOUNCE_MS; lia|].
      exists (now w). split; [reflexivity|].
      apply in_or_app. right. simpl. rewrite Hf. left. reflexivity.
  - split; [apply Ht'|apply Hs'].
  - change (change_log (now w) [Tick]) with (@nil (N * Channel)).
    rewrite app_nil_r. split.
    + change (instances (step Tick w))
        with (fst (tick_all w (now w + 1) (instances w))).
      change (now (step Tick w)) with (now w + 1).
      eapply tick_all_timers; [|exact Ht].
      intros i H c d E. apply tick_instance_timers in E as [E Hlt].
      destruct (H c d E) as [_ Hex]. split; assumption.
    + change (sent (step Tick w))
        with (sent w ++ snd (tick_all w (now w + 1) (instances w))).
      apply Forall_app. split; [exact Hs|].
      apply Forall_forall. intros dl Hin. apply list_elem_of_In in Hin.
      apply tick_all_sent in Hin as (i & Hi & Hd).
      apply tick_instance_sent in Hd as (Hat & deadline & Htimer & Hle).
      rewrite Forall_forall in Ht. apply list_elem_of_In in Hi.
      destruct (Ht i Hi _ _ Htimer) as [Hlt Hex].
      right. assert (deadline = at_time dl) as <- by lia. exact Hex.
Qed.

Lemma justified_run (old : list Delivery) (trace : list Action)
    (log : list (N * Channel)) (w : World) :
  justified old log w ->
  justified old (log ++ change_log (now w) trace) (run trace w).
Proof.
  revert log w. induction trace as [|a trace IH]; intros log w H.
  - simpl. rewrite app_nil_r. exact H.
  - rewrite change_log_step, app_assoc. simpl run.
    apply IH. apply justified_step. exact H.
Qed.

(** X10: the watcher never notifies without cause.  From a process in which
    no timer is pending, whatever is called and whatever happens (starts,
    stops, raw events, windows destroyed, time passing, several watchers at
    once), every notification sent is sent exactly 500ms after a raw event
    that carried a file name of the category of its channel. *)
Theorem notifications_follow_events (w : World) (trace : list Action) :
  idle w ->
  Forall (fun dl =>
            In dl (sent w)
            \/ explained (change_log (now w) trace) (at_time dl) (channel dl))
         (sent (run trace w)).
Proof.
  intros Hidle.
  assert (H0 : justified (sent w) [] w).
  { split.
    - eapply Forall_impl; [exact Hidle|].
      intros i [Hc Hf] [] d; simpl; congruence.
    - apply Forall_forall. intros dl Hin. left.
      apply list_elem_of_In. exact Hin. }
  apply (justified_run (sent w) trace [] w) in H0 as [_ Hs]. exact Hs.
Qed.

Lemma win_deliver_change (w : World) (filename : option string) (i : Instance) :
  win (deliver_change w filename i) = win i.
Proof.
  unfold deliver_change. destruct (closed i); [reflexivity|].
  unfold on_change. destruct filename as [f|]; [|reflexivity].
  destruct (negb (Js.truthy_string f) || isDestroyed w (win i)); [reflexivity|].
  destruct (isCapabilitiesChange f); reflexivity.
Qed.

Lemma tick_all_lookup (w : World) (t : N) (l : list Instance) (k : nat)
    (i : Instance) :
  l !! k = Some i ->
  exists i', fst (tick_all w t l) !! k = Some i'
             /\ closed i' = closed i /\ win i' = win i.
Proof.
  revert k. induction l as [|x l IH]; intros [|k]; simpl; try discriminate.
  - intros [= ->]. eexists. split; [reflexivity|]. split; reflexivity.
  - apply IH.
Qed.

Lemma leaked_step (k window : nat) (a : Action) (w : World) :
  leaked k window w -> leaked k window (step a w).
Proof.
  intros [(i & Hk & Hc & Hw) Hne].
  destruct a as [window'| |filename|window'|]; simpl.
  - unfold startWorkspaceWatcher. destruct (negb (watchDirExists w)).
    + split; [exists i; auto|exact Hne].
    + split; simpl.
      * exists i. split; [|auto].
        rewrite lookup_app_l; [exact Hk|]. apply lookup_lt_Some in Hk. exact Hk.
      * apply lookup_lt_Some in Hk. intros [= E]. lia.
  - unfold stopWorkspaceWatcher. destruct (watcher w) as [j|] eqn:Ej.
    + split; simpl; [|discriminate].
      exists i. split; [|auto].
      rewrite list_lookup_alter_ne; [exact Hk|]. congruence.
    + split; [exists i; auto|]. rewrite Ej. discriminate.
  - split; [|exact Hne]. simpl.
    exists (deliver_change w filename i). split.
    + change (List.map (deliver_change w filename) (instances w))
        with (deliver_change w filename <$> instances w).
      rewrite list_lookup_fmap, Hk. reflexivity.
    + rewrite closed_deliver_change, win_deliver_change. auto.
  - split; [exists i; auto|exact Hne].
  - split; [|exact Hne]. simpl.
    destruct (tick_all_lookup w (now w + 1) _ k i Hk) as (i' & Hk' & Hc' & Hw').
    exists i'. split; [exact Hk'|]. split; congruence.
Qed.

Lemma leaked_run (k window : nat) (trace : list Action) (w : World) :
  leaked k window w -> leaked k window (run trace w).
Proof.
  revert w. induction trace as [|a trace IH]; intros w H; [exact H|].
  simpl. apply IH. apply leaked_step. exact H.
Qed.

(** X11: a call of [startWorkspaceWatcher] while a watcher is still open
    leaks that watcher.  The module variable moves on to the new watcher, so
    nothing that happens afterwards closes the old one: it stays open for its
    window through every later start and stop, and a raw event with a file
    name still arms its timer as long as its window is not destroyed. *)
Theorem start_over_open_watcher_leaks (w : World) (k : nat) (i : Instance)
    (window : nat) (trace : list Action) :
  watchDirExists w = true ->
  instances w !! k = Some i ->
  closed i = false ->
  watcher (step (Start window) w) = Some (List.length (instances w))
  /\ (k < List.length (instances w))%nat
  /\ (exists i',
        instances (run (Start window :: trace) w) !! k = Some i'
        /\ closed i' = false /\ win i' = win i)
  /\ watcher (run (Start window :: trace) w) <> Some k
  /\ (forall f,
        Js.truthy_string f = true ->
        win i ∉ destroyed (run (Start window :: trace) w) ->
        exists i'',
          instances (step (Change (Some f)) (run (Start window :: trace) w)) !! k
          = Some i''
          /\ timer_of (category f) i''
             = Some (now (run (Start window :: trace) w) + DEBOUNCE_MS)).
Proof.
  intros Hdir Hk Hc.
  assert (Hlt : (k < List.length (instances w))%nat)
    by (apply lookup_lt_Some in Hk; exact Hk).
  assert (Hstart : step (Start window) w
                   = {| now := now w; watchDirExists := watchDirExists w;
                        destroyed := destroyed w;
                        watcher := Some (List.length (instances w));
                        instances := instances w ++ [mkInstance window false None None];
                        sent := sent w |}).
  { simpl. unfold startWorkspaceWatcher. rewrite Hdir. reflexivity. }
  assert (H1 : leaked k (win i) (step (Start window) w)).
  { rewrite Hstart. split; simpl.
    - exists i. split; [|auto]. rewrite lookup_app_l; [exact Hk|exact Hlt].
    - intros [= E]. lia. }
  pose proof (leaked_run k (win i) trace _ H1) as [(i' & Hk' & Hc' & Hw') Hne].
  split; [rewrite Hstart; reflexivity|]. split; [exact Hlt|].
  split; [exists i'; auto|]. split; [exact Hne|].
  intros f Hf Hd. simpl run in *.
  set (w' := run trace (step (Start window) w)) in *.
  exists (deliver_change w' (Some f) i'). split.
  - simpl.
    change (List.map (deliver_change w' (Some f)) (instances w'))
      with (deliver_change w' (Some f) <$> instances w').
    rewrite list_lookup_fmap, Hk'. reflexivity.
  - unfold deliver_change. rewrite Hc'.
    rewrite on_change_timer.
    + rewrite bool_decide_eq_true_2 by reflexivity. reflexivity.
    + exact Hf.
    + unfold isDestroyed. apply bool_decide_eq_false_2. rewrite Hw'. exact Hd.
Qed.

Lemma pristine_step (a : Action) (w : World) :
  watchDirExists w = false -> pristine w ->
  watchDirExists (step a w) = false /\ pristine (step a w).
Proof.
  intros Hdir [Hi Hs]. destruct a as [window| |filename|window|]; simpl.
  - unfold startWorkspaceWatcher. rewrite Hdir. simpl. split; [exact Hdir|].
    split; assumption.
  - unfold stopWorkspaceWatcher. destruct (watcher w) as [k|]; simpl.
    + split; [exact Hdir|]. split; simpl; [|exact Hs]. rewrite Hi. reflexivity.
    + split; [exact Hdir|]. split; assumption.
  - split; [exact Hdir|]. split; simpl; [|exact Hs]. rewrite Hi. reflexivity.
  - split; [exact Hdir|]. split; assumption.
  - split; [exact Hdir|]. split; simpl; rewrite Hi; simpl; [reflexivity|].
    rewrite Hs. reflexivity.
Qed.

(** X12: when the directory of the workspaces does not exist,
    [startWorkspaceWatcher] is skipped: from a process in which nothing was
    started, no sequence of starts, stops, raw events and passing time
    creates a watcher or sends a notification. *)
Theorem missing_directory_never_watches (w : World) (trace : list Action) :
  watchDirExists w = false -> pristine w ->
  (forall window, startWorkspaceWatcher window w = w)
  /\ instances (run trace w) = []
  /\ sent (run trace w) = [].
Proof.
  intros Hdir Hp. split.
  { intros window. unfold startWorkspaceWatcher. rewrite Hdir. reflexivity. }
  assert (H : watchDirExists (run trace w) = false /\ pristine (run trace w)).
  { revert w Hdir Hp. induction trace as [|a trace IH]; intros w Hdir Hp.
    - split; assumption.
    - simpl. destruct (pristine_step a w Hdir Hp) as [Hdir' Hp'].
      apply IH; assumption. }
  destruct H as [_ [Hi Hs]]. split; assumption.
Qed.

End WatcherSafetyFacts.

Section WatcherSafetyExamples.

Import WorkspaceWatcher WatcherLog WatcherSafety.
Local Open Scope N_scope.

Lemma notifications_follow_events_witness :
  Forall (fun dl =>
            In dl (sent boot)
            \/ explained
                 (change_log (now boot)
                    (Start 0%nat :: Change (Some "default/mcp.json"%string)
                     :: wait 600))
                 (at_time dl) (channel dl))
         (sent (run (Start 0%nat :: Change (Some "default/mcp.json"%string)
                     :: wait 600) boot)).
Proof.
  apply (notifications_follow_events boot). constructor.
Defined.

Lemma start_over_open_watcher_leaks_witness :
  exists i',
    instances (run (Start 1%nat :: [Stop; Stop]) started) !! 0%nat = Some i'
    /\ closed i' = false /\ win i' = 0%nat.
Proof.
  destruct (start_over_open_watcher_leaks started 0
              (mkInstance 0 false None None) 1 [Stop; Stop])
    as (_ & _ & H & _); [reflexivity|reflexivity|reflexivity|exact H].
Defined.

Lemma missing_directory_never_watches_witness :
  instances (run (Start 0%nat :: Change (Some "default/mcp.json"%string)
                  :: wait 600) no_directory) = []
  /\ sent (run (Start 0%nat :: Change (Some "default/mcp.json"%string)
               :: wait 600) no_directory) = [].
Proof.
  destruct (missing_directory_never_watches no_directory
              (Start 0%nat :: Change (Some "default/mcp.json"%string)
               :: wait 600)) as (_ & Hi & Hs);
    [reflexivity|split; reflexivity|split; assumption].
Defined.

End WatcherSafetyExamples.

Section ToolNameFacts.

Import ToolName.

Lemma startsWith_cons (a b : ascii) (p s : string) :
  Js.startsWith (String a p) (String b s)
  = Ascii.eqb a b && Js.startsWith p s.
Proof. reflexivity. Qed.

Lemma startsWith_drop (p s : string) :
  Js.startsWith p s = true ->
  s = String.append p (JsText.drop (String.length p) s).
Proof.
  revert s. induction p as [|a p IH]; intros s; [reflexivity|].
  destruct s as [|b s]; simpl; [discriminate|].
  destruct (Ascii.eqb_spec a b) as [->|]; simpl; [|discriminate].
  intros H. rewrite append_cons. f_equal. apply IH. exact H.
Qed.

Lemma startsWith_take (p s : string) (n : nat) :
  Js.startsWith p (JsText.take n s) = true -> Js.startsWith p s = true.
Proof.
  revert s n. induction p as [|a p IH]; intros s n; [reflexivity|].
  destruct n as [|n], s as [|b s]; simpl; try discriminate.
  destruct (Ascii.eqb a b); simpl; [apply IH|discriminate].
Qed.

Lemma indexOf_split (p s : string) (n : nat) :
  JsText.indexOf p s = Some n ->
  s = String.append (JsText.take n s)
        (String.append p (JsText.drop (n + String.length p) s)).
Proof.
  revert n. induction s as [|c s IH]; intros n.
  - destruct p as [|a p]; simpl; [|discriminate].
    intros [= <-]. reflexivity.
  - change (JsText.indexOf p (String c s))
      with (if Js.startsWith p (String c s) then Some O
            else option_map S (JsText.indexOf p s)).
    destruct (Js.startsWith p (String c s)) eqn:Hs.
    + intros [= <-]. simpl JsText.take. rewrite append_nil.
      apply startsWith_drop. exact Hs.
    + destruct (JsText.indexOf p s) as [k|]; simpl; [|discriminate].
      intros [= <-]. simpl. rewrite append_cons. f_equal. apply IH. reflexivity.
Qed.

(** The text before the first occurrence of a pattern does not hold the
    pattern. *)
Lemma indexOf_take (p s : string) (n : nat) :
  p <> EmptyString ->
  JsText.indexOf p s = Some n ->
  JsText.indexOf p (JsText.take n s) = None.
Proof.
  intros Hp. revert n. induction s as [|c s IH]; intros n.
  - destruct p as [|a p]; [congruence|]. simpl. discriminate.
  - change (JsText.indexOf p (String c s))
      with (if Js.startsWith p (String c s) then Some O
            else option_map S (JsText.indexOf p s)).
    destruct (Js.startsWith p (String c s)) eqn:Hs.
    + intros [= <-]. destruct p as [|a p]; [congruence|]. reflexivity.
    + destruct (JsText.indexOf p s) as [k|] eqn:Ek; simpl; [|discriminate].
      intros [= <-].
      change (JsText.take (S k) (String c s)) with (String c (JsText.take k s)).
      change (JsText.indexOf p (String c (JsText.take k s)))
        with (if Js.startsWith p (String c (JsText.take k s)) then Some O
              else option_map S (JsText.indexOf p (JsText.take k s))).
      destruct (Js.startsWith p (String c (JsText.take k s))) eqn:Ht.
      * apply (startsWith_take p (String c s) (S k)) in Ht. congruence.
      * rewrite (IH k eq_refl). reflexivity.
Qed.

Lemma take_app_length (a b : string) :
  JsText.take (String.length a) (String.append a b) = a.
Proof.
  induction a as [|c a IH].
  - rewrite append_nil. destruct b; reflexivity.
  - rewrite append_cons. simpl. rewrite IH. reflexivity.
Qed.

Lemma drop_app_length (a b : string) :
  JsText.drop (String.length a) (String.append a b) = b.
Proof.
  induction a as [|c a IH]; [reflexivity|].
  rewrite append_cons. simpl. exact IH.
Qed.

(** Where the separator is found behind a server name that has no two
    underscores in a row and does not end with one. *)
Lemma indexOf_separator (server rest : string) :
  JsText.indexOf "__" (String.append server "_") = None ->
  JsText.indexOf "__" (String.append server (String.append "__" rest))
  = Some (String.length server).
Proof.
  induction server as [|c s IH]; [reflexivity|].
  rewrite (append_cons c s "_"), (append_cons c s (String.append "__" rest)).
  change (JsText.indexOf "__" (String c (String.append s "_")))
    with (if Js.startsWith "__" (String c (String.append s "_")) then Some O
          else option_map S (JsText.indexOf "__" (String.append s "_"))).
  destruct (Js.startsWith "__" (String c (String.append s "_"))) eqn:Hs;
    [discriminate|].
  destruct (JsText.indexOf "__" (String.append s "_")) eqn:Hi; [discriminate|].
  intros _.
  change (JsText.indexOf "__" (String c (String.append s (String.append "__" rest))))
    with (if Js.startsWith "__" (String c (String.append s (String.append "__" rest)))
          then Some O
          else option_map S
                 (JsText.indexOf "__" (String.append s (String.append "__" rest)))).
  assert (Hs' : Js.startsWith "__"
                  (String c (String.append s (String.append "__" rest))) = false).
  { rewrite startsWith_cons in Hs |- *.
    destruct (Ascii.eqb "_" c); [|reflexivity].
    rewrite andb_true_l in Hs |- *. destruct s as [|d s].
    - rewrite append_nil in Hs. discriminate.
    - rewrite append_cons in Hs |- *. rewrite startsWith_cons in Hs |- *.
      exact Hs. }
  rewrite Hs', (IH eq_refl). reflexivity.
Qed.

Lemma parseMcpToolName_cases (toolName : string) :
  parseMcpToolName toolName
  = if Js.startsWith "mcp__" toolName then
      match JsText.indexOf "__" (JsText.drop 5 toolName) with
      | None => None
      | Some idx =>
          Some {| server := JsText.take idx (JsText.drop 5 toolName);
                  tool := JsText.drop (idx + 2) (JsText.drop 5 toolName) |}
      end
    else None.
Proof.
  unfold parseMcpToolName. destruct (Js.startsWith "mcp__" toolName); reflexivity.
Qed.

(** X13: what [parseMcpToolName] returns is a decomposition of the name:
    the name is 'mcp__', the server, '__' and the tool, in this order; the
    server is the text up to the first '__' behind the prefix, so it holds
    no '__' itself (the tool may); and [formatToolName] shows the two parts
    around ' · '. *)
Theorem parseMcpToolName_decomposes (toolName : string) (mcp : McpName) :
  parseMcpToolName toolName = Some mcp ->
  toolName
  = String.append "mcp__"
      (String.append (server mcp) (String.append "__" (tool mcp)))
  /\ JsText.indexOf "__" (server mcp) = None
  /\ formatToolName toolName
     = String.append (server mcp) (String.append " · " (tool mcp)).
Proof.
  intros H. assert (Hf := H). rewrite parseMcpToolName_cases in H.
  destruct (Js.startsWith "mcp__" toolName) eqn:Hs; [|discriminate].
  destruct (JsText.indexOf "__" (JsText.drop 5 toolName)) as [idx|] eqn:Hi;
    [|discriminate].
  destruct mcp as [srv tl]. injection H as <- <-. unfold server, tool.
  split; [|split].
  - pose proof (indexOf_split "__" (JsText.drop 5 toolName) idx Hi) as Hsp.
    exact (eq_trans (startsWith_drop "mcp__" toolName Hs)
             (f_equal (String.append "mcp__") Hsp)).
  - apply indexOf_take; [discriminate|exact Hi].
  - unfold formatToolName. rewrite Hf. reflexivity.
Qed.

(** X14: [parseMcpToolName] undoes the naming scheme: for a server name
    that has no two underscores in a row and does not end with an
    underscore, the name 'mcp__<server>__<tool>' is parsed back into that
    server and that tool, whatever the tool name holds. *)
Theorem parseMcpToolName_roundtrip (server_name tool_name : string) :
  JsText.indexOf "__" (String.append server_name "_") = None ->
  parseMcpToolName
    (String.append "mcp__"
       (String.append server_name (String.append "__" tool_name)))
  = Some {| server := server_name; tool := tool_name |}.
Proof.
  intros H. unfold parseMcpToolName.
  change (Js.startsWith "mcp__"
            (String.append "mcp__"
               (String.append server_name (String.append "__" tool_name))))
    with true.
  change (JsText.drop 5
            (String.append "mcp__"
               (String.append server_name (String.append "__" tool_name))))
    with (String.append server_name (String.append "__" tool_name)).
  simpl negb. cbv iota.
  rewrite (indexOf_separator server_name tool_name H).
  rewrite take_app_length.
  replace (JsText.drop (String.length server_name + 2)
             (String.append server_name (String.append "__" tool_name)))
    with tool_name; [reflexivity|].
  replace (String.length server_name + 2)%nat
    with (String.length (String.append server_name "__")).
  - rewrite <- (drop_app_length (String.append server_name "__") tool_name) at 1.
    rewrite append_assoc. reflexivity.
  - clear H. induction server_name as [|c s IH]; [reflexivity|].
    rewrite append_cons. simpl. rewrite IH. reflexivity.
Qed.

(** X15: [FileBadge] shows the part of the path behind its last '/': for a
    name without '/', the badge of 'dir/name' is the name, whatever the
    directory part holds, and the badge of the bare name is the name.  A
    path that ends in '/' therefore has an empty badge, and the separators
    of Windows are not recognised. *)
Theorem FileBadge_filename_basename (dir name : string) :
  Js.split "/" name = [name] ->
  FileBadge_filename (String.append dir (String "/" name)) = name
  /\ FileBadge_filename name = name.
Proof.
  intros H. unfold FileBadge_filename. split.
  - rewrite split_app, H. apply List.last_last.
  - rewrite H. reflexivity.
Qed.

End ToolNameFacts.

Section ToolNameExamples.

Import ToolName.

Lemma parseMcpToolName_decomposes_witness :
  "mcp__github__list_issues"%string
  = String.append "mcp__"
      (String.append "github" (String.append "__" "list_issues"))
  /\ JsText.indexOf "__" "github" = None
  /\ formatToolName "mcp__github__list_issues"
     = String.append "github" (String.append " · " "list_issues").
Proof.
  exact (parseMcpToolName_decomposes "mcp__github__list_issues"
           {| server := "github"; tool := "list_issues" |} eq_refl).
Defined.

Lemma parseMcpToolName_roundtrip_witness :
  parseMcpToolName
    (String.append "mcp__"
       (String.append "github" (String.append "__" "search__code")))
  = Some {| server := "github"; tool := "search__code" |}.
Proof.
  exact (parseMcpToolName_roundtrip "github" "search__code" eq_refl).
Defined.

Lemma FileBadge_filename_basename_witness :
  FileBadge_filename (String.append "src/app" (String "/" "main.ts")) = "main.ts"%string
  /\ FileBadge_filename "main.ts" = "main.ts"%string.
Proof.
  exact (FileBadge_filename_basename "src/app" "main.ts" eq_refl).
Defined.

End ToolNameExamples.

Section ToolInputFacts.

Import ToolInput.
Local Open Scope nat_scope.

Lemma firstn_firstn_app {A : Type} (n : nat) (s e : list A) :
  n <= List.length s -> List.firstn n (List.firstn n s ++ e) = List.firstn n s.
Proof.
  revert s. induction n as [|n IH]; intros s H; [reflexivity|].
  destruct s as [|x s]; simpl in H; [lia|].
  simpl. f_equal. apply IH. lia.
Qed.

Lemma length_firstn_le {A : Type} (n : nat) (s : list A) :
  n <= List.length s -> List.length (List.firstn n s) = n.
Proof.
  revert s. induction n as [|n IH]; intros s H; [reflexivity|].
  destruct s as [|x s]; simpl in H; [lia|].
  simpl. f_equal. apply IH. lia.
Qed.

(** The truncation to [n] code units and an ellipsis. *)
Lemma truncate_spec (n : nat) (s : ustring) :
  List.length (truncate n s) <= S n
  /\ List.firstn n (truncate n s) = List.firstn n s
  /\ (List.length s <= n -> truncate n s = s)
  /\ (n < List.length s -> truncate n s = List.firstn n s ++ [ellipsis]).
Proof.
  unfold truncate. destruct (Nat.ltb_spec n (List.length s)) as [Hlt|Hle].
  - split; [|split; [|split]].
    + rewrite List.length_app, length_firstn_le by lia. simpl. lia.
    + apply firstn_firstn_app. lia.
    + intros H. lia.
    + reflexivity.
  - split; [lia|]. split; [reflexivity|]. split; [reflexivity|]. lia.
Qed.

Lemma clause_Some (applies : bool) (field : option value)
    (render : ustring -> ustring) (r : ustring) :
  clause applies field render = Some r ->
  applies = true /\ exists s, field = Some (VStr s) /\ r = render s.
Proof.
  unfold clause. destruct applies; [|discriminate].
  destruct field as [[|s|]|]; try discriminate.
  intros [= <-]. split; [reflexivity|]. exists s. split; reflexivity.
Qed.

Lemma or_else_Some (a b : option ustring) (r : ustring) :
  or_else a b = Some r -> a = Some r \/ (a = None /\ b = Some r).
Proof. destruct a; simpl; intros H; [left|right]; auto. Qed.

(** X16: [getInputSummary] has a summary for the tools Bash, Grep, Glob,
    WebFetch, WebSearch and Skill only, and only when the field it reads is
    a string.  The summary of a Bash command has at most 81 code units: the
    command itself when it has at most 80, else its first 80 followed by an
    ellipsis.  The summary of WebFetch and WebSearch is cut in the same way
    at 60, and is taken from [url], or from [query] when [url] is absent or
    null. *)
Theorem getInputSummary_cases (toolName : string) (input : gmap string value)
    (r : ustring) :
  getInputSummary toolName input = Some r ->
  (toolName = "Bash"%string
   /\ exists cmd,
        input !! "command"%string = Some (VStr cmd)
        /\ List.length r <= 81
        /\ List.firstn 80 r = List.firstn 80 cmd
        /\ (List.length cmd <= 80 -> r = cmd)
        /\ (80 < List.length cmd -> r = List.firstn 80 cmd ++ [ellipsis]))
  \/ (toolName = "Grep"%string
      /\ exists pattern,
           input !! "pattern"%string = Some (VStr pattern)
           /\ r = ustr "/" ++ pattern ++ ustr "/")
  \/ (toolName = "Glob"%string /\ input !! "pattern"%string = Some (VStr r))
  \/ ((toolName = "WebFetch"%string \/ toolName = "WebSearch"%string)
      /\ exists url,
           nullish_or (input !! "url"%string) (input !! "query"%string)
           = Some (VStr url)
           /\ List.length r <= 61
           /\ List.firstn 60 r = List.firstn 60 url
           /\ (List.length url <= 60 -> r = url)
           /\ (60 < List.length url -> r = List.firstn 60 url ++ [ellipsis]))
  \/ (toolName = "Skill"%string /\ input !! "skill"%string = Some (VStr r)).
Proof.
  intros H. unfold getInputSummary in H.
  apply or_else_Some in H as [H|[_ H]].
  { left. apply clause_Some in H as (Ht & cmd & Hf & ->).
    apply String.eqb_eq in Ht. split; [exact Ht|]. exists cmd.
    split; [exact Hf|]. apply (truncate_spec 80 cmd). }
  apply or_else_Some in H as [H|[_ H]].
  { right. left. apply clause_Some in H as (Ht & p & Hf & ->).
    apply String.eqb_eq in Ht. split; [exact Ht|]. exists p. auto. }
  apply or_else_Some in H as [H|[_ H]].
  { right. right. left. apply clause_Some in H as (Ht & p & Hf & ->).
    apply String.eqb_eq in Ht. split; [exact Ht|exact Hf]. }
  apply or_else_Some in H as [H|[_ H]].
  { right. right. right. left. apply clause_Some in H as (Ht & url & Hf & ->).
    apply orb_true_iff in Ht. split.
    - destruct Ht as [Ht|Ht]; apply String.eqb_eq in Ht; auto.
    - exists url. split; [exact Hf|]. apply (truncate_spec 60 url). }
  apply or_else_Some in H as [H|[_ H]]; [|discriminate].
  right. right. right. right. apply clause_Some in H as (Ht & p & Hf & ->).
  apply String.eqb_eq in Ht. split; [exact Ht|exact Hf].
Qed.

Lemma getInputSummary_short_command :
  getInputSummary "Bash" {[ "command"%string := VStr (ustr "ls -la") ]}
  = Some (ustr "ls -la").
Proof. reflexivity. Qed.

Lemma getInputSummary_cases_witness :
  exists r,
    getInputSummary "Bash" {[ "command"%string := VStr (ustr "ls -la") ]} = Some r
    /\ List.length r <= 81.
Proof.
  exists (ustr "ls -la"). split; [exact getInputSummary_short_command|].
  destruct (getInputSummary_cases "Bash"
              {[ "command"%string := VStr (ustr "ls -la") ]} (ustr "ls -la")
              getInputSummary_short_command)
    as [(_ & cmd & _ & Hlen & _)|[(E & _)|[(E & _)|[([E|E] & _)|(E & _)]]]];
    [exact Hlen|inversion E..].
Defined.

End ToolInputFacts.

Section DiffBadgeFacts.

Import ToolActivityItem DiffBadge.

(** X17: the estimate of [computeDiffStats] always shows in [DiffBadges]:
    the two counts are never negative and add up to at least 2, so at least
    one badge is rendered; both badges are rendered only as -1 and +1, which
    is what an Edit with as many lines before as after gets. *)
Theorem computeDiffStats_badges (toolName : string) (input : gmap string unknown)
    (stats : DiffStats) :
  computeDiffStats toolName input = Some stats ->
  0 <= additions stats
  /\ 0 <= deletions stats
  /\ 2 <= additions stats + deletions stats
  /\ DiffBadges stats <> []
  /\ (0 < additions stats -> 0 < deletions stats ->
      DiffBadges stats = [Minus 1; Plus 1]
      /\ lines (string_field input "old_string")
         = lines (string_field input "new_string"))
  /\ (lines (string_field input "old_string")
      = lines (string_field input "new_string") ->
      DiffBadges stats = [Minus 1; Plus 1]).
Proof.
  unfold computeDiffStats. destruct (String.eqb toolName "Edit"); [|discriminate].
  cbv zeta.
  destruct (negb (Js.truthy_string (string_field input "old_string"))
            && negb (Js.truthy_string (string_field input "new_string")));
    [discriminate|].
  intros [= <-]. unfold DiffBadges, lines. cbn [additions deletions].
  set (o := Z.of_nat (List.length (Js.split Js.LF (string_field input "old_string")))).
  set (n := Z.of_nat (List.length (Js.split Js.LF (string_field input "new_string")))).
  split; [lia|]. split; [lia|]. split; [lia|]. split; [|split].
  - destruct (Z.ltb_spec 0 (Z.max 0 (o - n + 1))); [discriminate|].
    destruct (Z.ltb_spec 0 (Z.max 0 (n - o + 1))); [discriminate|lia].
  - intros Ha Hd. assert (o = n) as -> by lia.
    replace (n - n + 1) with 1 by lia. split; reflexivity.
  - intros ->. replace (n - n + 1) with 1 by lia. reflexivity.
Qed.

Lemma computeDiffStats_badges_witness :
  DiffBadges {| additions := 1; deletions := 1 |} = [Minus 1; Plus 1].
Proof.
  destruct (computeDiffStats_badges "Edit" (edit_input "a" "b")
              {| additions := 1; deletions := 1 |} eq_refl)
    as (_ & _ & _ & _ & _ & H).
  apply H. reflexivity.
Defined.

End DiffBadgeFacts.
